(** * b4 ty: matching engine and tracked-item store

    A shallow embedding of [b4/ty.py] (the thank-you tracker of b4) and
    the properties of its commit locator, commit index and file-based
    lifecycle store.

    Conventions of the embedding:
    - Python exceptions are values of [exn]; [sys.exit n] is
      [SystemExit n], as in Python.
    - Code that touches the process globals or the file system runs in
      the monad [M], a state-and-exception monad over [world].
    - The helpers of the [b4] package that [ty.py] calls (git queries,
      configuration) are the fields of the record [b4].
    - Logging is not modelled: it changes neither results nor state.
    - Strings are byte strings; the Python text primitives are modelled
      on ASCII. *)

From Stdlib Require Import ZArith String Ascii List Lia Bool Sorted.
From stdpp Require Import base option list strings gmap.

Local Open Scope string_scope.
Local Open Scope Z_scope.

(** ** Python primitives *)

Module Py.

Inductive exn : Type :=
| SystemExit (code : Z)
| ValueError
| IndexError
| KeyError
| TypeError
| FileNotFoundError.

Inductive res (A : Type) : Type :=
| Ret (a : A)
| Raise (e : exn).
Arguments Ret {A} a.
Arguments Raise {A} e.

Definition res_bind {A B} (r : res A) (k : A -> res B) : res B :=
  match r with
  | Ret a => k a
  | Raise e => Raise e
  end.

(** [str.isspace] on ASCII: tab, LF, VT, FF, CR, FS, GS, RS, US, space. *)
Definition is_space (c : ascii) : bool :=
  let n := nat_of_ascii c in
  ((9 <=? n) && (n <=? 13) || (28 <=? n) && (n <=? 32))%nat.

Fixpoint lstrip (s : string) : string :=
  match s with
  | EmptyString => EmptyString
  | String c s' => if is_space c then lstrip s' else s
  end.

Fixpoint rev_string (s acc : string) : string :=
  match s with
  | EmptyString => acc
  | String c s' => rev_string s' (String c acc)
  end.

Definition rstrip (s : string) : string :=
  rev_string (lstrip (rev_string s "")) "".

(** [s.strip()] *)
Definition strip (s : string) : string := rstrip (lstrip s).

(** The maximal run of non-space characters at the head of [s], and the
    rest of [s]. *)
Fixpoint take_word (s : string) : string * string :=
  match s with
  | EmptyString => (EmptyString, EmptyString)
  | String c s' =>
      if is_space c then (EmptyString, s)
      else let '(w, r) := take_word s' in (String c w, r)
  end.

(** [s.split()]: the words of [s], split on runs of whitespace. [cur] is
    the word being read. *)
Fixpoint split_go (s : string) (cur : option string) : list string :=
  match s with
  | EmptyString => match cur with Some w => [w] | None => [] end
  | String c s' =>
      if is_space c then
        match cur with
        | Some w => w :: split_go s' None
        | None => split_go s' None
        end
      else
        split_go s' (Some (match cur with
                           | Some w => w +:+ String c EmptyString
                           | None => String c EmptyString
                           end))
  end.

Definition split (s : string) : list string := split_go s None.

(** [s.split(maxsplit=1)]: the first word, then the rest of the line
    without its leading whitespace (kept only when it is not empty). *)
Definition split_max1 (s : string) : list string :=
  match lstrip s with
  | EmptyString => []
  | s1 =>
      let '(w, r) := take_word s1 in
      match lstrip r with
      | EmptyString => [w]
      | r' => [w; r']
      end
  end.

Definition digit_of (c : ascii) : option Z :=
  let n := nat_of_ascii c in
  if ((48 <=? n) && (n <=? 57))%nat then Some (Z.of_nat n - 48) else None.

(** Decimal digits, single underscores allowed between two digits.
    [prev] tells whether the previous character was a digit. *)
Fixpoint digits_go (s : string) (acc : Z) (prev : bool) : option Z :=
  match s with
  | EmptyString => if prev then Some acc else None
  | String c s' =>
      match digit_of c with
      | Some d => digits_go s' (10 * acc + d) true
      | None =>
          if Ascii.eqb c "_" && prev then digits_go s' acc false else None
      end
  end.

(** The whitespace that [int] skips around an ASCII numeral: tab, LF,
    VT, FF, CR and space. *)
Definition is_int_space (c : ascii) : bool :=
  let n := nat_of_ascii c in
  ((9 <=? n) && (n <=? 13) || (n =? 32))%nat.

Fixpoint lstrip_int (s : string) : string :=
  match s with
  | EmptyString => EmptyString
  | String c s' => if is_int_space c then lstrip_int s' else s
  end.

Definition strip_int (s : string) : string :=
  rev_string (lstrip_int (rev_string (lstrip_int s) "")) "".

(** [int(s)] on an ASCII string: surrounding whitespace, an optional
    sign, then decimal digits; [ValueError] otherwise. *)
Definition int (s : string) : res Z :=
  let body sgn d :=
    match digits_go d 0 false with
    | Some n => Ret (sgn * n)
    | None => Raise ValueError
    end in
  match strip_int s with
  | String "-" d => body (-1) d
  | String "+" d => body 1 d
  | d => body 1 d
  end.

(** [l[i]] on a list: a negative index counts from the end;
    [IndexError] outside [-len l .. len l - 1]. *)
Definition getitem {A} (l : list A) (i : Z) : res A :=
  let n := Z.of_nat (length l) in
  let j := if i <? 0 then i + n else i in
  if (j <? 0) || (n <=? j) then Raise IndexError
  else match l !! Z.to_nat j with
       | Some x => Ret x
       | None => Raise IndexError
       end.

(** [name.rfind('.')], counting positions from [pos]. *)
Fixpoint rfind_dot (s : string) (pos : nat) : option nat :=
  match s with
  | EmptyString => None
  | String c s' =>
      match rfind_dot s' (S pos) with
      | Some i => Some i
      | None => if Ascii.eqb c "." then Some pos else None
      end
  end.

(** [pathlib.PurePath.suffix] of a file name: from the last dot on, when
    that dot is neither the first nor the last character. *)
Definition suffix (name : string) : string :=
  match rfind_dot name 0 with
  | Some i =>
      if ((0 <? i) && (i <? String.length name - 1))%nat
      then substring i (String.length name - i) name
      else EmptyString
  | None => EmptyString
  end.

(** [pathlib.PurePath.stem]: the name without its suffix. *)
Definition stem (name : string) : string :=
  match rfind_dot name 0 with
  | Some i =>
      if ((0 <? i) && (i <? String.length name - 1))%nat
      then substring 0 i name
      else name
  | None => name
  end.

(** [\w] on ASCII: letters, digits and the underscore. *)
Definition is_word (c : ascii) : bool :=
  let n := nat_of_ascii c in
  ((48 <=? n) && (n <=? 57) || (65 <=? n) && (n <=? 90)
   || (97 <=? n) && (n <=? 122) || (n =? 95))%nat.

(** [re.sub(r'\W', '_', s)] on ASCII text. *)
Fixpoint sub_nonword (s : string) : string :=
  match s with
  | EmptyString => EmptyString
  | String c s' => String (if is_word c then c else "_"%char) (sub_nonword s')
  end.

Definition lower_char (c : ascii) : ascii :=
  let n := nat_of_ascii c in
  if ((65 <=? n) && (n <=? 90))%nat then ascii_of_nat (n + 32) else c.

(** [s.lower()] on ASCII text. *)
Fixpoint lower (s : string) : string :=
  match s with
  | EmptyString => EmptyString
  | String c s' => String (lower_char c) (lower s')
  end.

(** [re.sub(r'_+', '_', s)]: every run of underscores becomes one. *)
Fixpoint squeeze_underscores (s : string) : string :=
  match s with
  | EmptyString => EmptyString
  | String c s' =>
      if Ascii.eqb c "_" then
        match s' with
        | String c' _ =>
            if Ascii.eqb c' "_" then squeeze_underscores s'
            else String c (squeeze_underscores s')
        | EmptyString => String c EmptyString
        end
      else String c (squeeze_underscores s')
  end.

End Py.

(** ** The embedding of [ty.py] *)

Module Ty.
Import Py.

(** *** Data *)

(** A tracked record as [json.load] returns it, with the keys that
    [list_tracked] and [auto_thankanator] add. An optional key is absent
    when its field is [None]; [patches] holds the [(label, patch-id)]
    pairs of a series in submission order. *)
Record jsondata : Type := {
  subject : string;
  fromname : string;
  fromemail : string;
  sentdate : string;
  msgid : string;
  references : string;
  to : string;
  cc : string;
  patches : option (list (string * string));
  myname : option string;
  myemail : option string;
  trackfile : option string;
  pr_commit_id : option string;
  merge_commit_id : option string
}.

Definition set_identity (name email file : string) (j : jsondata) : jsondata :=
  {| subject := subject j; fromname := fromname j; fromemail := fromemail j;
     sentdate := sentdate j; msgid := msgid j; references := references j;
     to := to j; cc := cc j; patches := patches j;
     myname := Some name; myemail := Some email; trackfile := Some file;
     pr_commit_id := pr_commit_id j; merge_commit_id := merge_commit_id j |}.

Definition set_pr_commit_id (c : string) (j : jsondata) : jsondata :=
  {| subject := subject j; fromname := fromname j; fromemail := fromemail j;
     sentdate := sentdate j; msgid := msgid j; references := references j;
     to := to j; cc := cc j; patches := patches j;
     myname := myname j; myemail := myemail j; trackfile := trackfile j;
     pr_commit_id := Some c; merge_commit_id := merge_commit_id j |}.

Definition set_merge_commit_id (c : string) (j : jsondata) : jsondata :=
  {| subject := subject j; fromname := fromname j; fromemail := fromemail j;
     sentdate := sentdate j; msgid := msgid j; references := references j;
     to := to j; cc := cc j; patches := patches j;
     myname := myname j; myemail := myemail j; trackfile := trackfile j;
     pr_commit_id := pr_commit_id j; merge_commit_id := Some c |}.

(** A file of the data directory: its name, modification time, the
    identity of the record it holds (its inode) and the parsed body. *)
Record file : Type := {
  f_name : string;
  f_mtime : Z;
  f_ino : nat;
  f_body : jsondata
}.

(** The commit index: patch-id to (commit-id, subject). *)
Abbreviation index := (gmap string (string * string)).

(** What a run can change: the module global [MY_COMMITS], the data
    directory of [b4.get_data_dir()] (in [iterdir] order) and the output
    directory named by [cmdargs.outdir] ([None] when it does not exist;
    otherwise its files with their contents). *)
Record world : Type := {
  MY_COMMITS : option index;
  data_dir : list file;
  out_dir : option (list (string * string))
}.

(** The functions of the [b4] package used by [ty.py], and the Python
    library calls whose results are opaque here. *)
Record b4 : Type := {
  (** [b4.git_run_command(gitdir, args, stdin)]: exit code and output *)
  git_run_command : option string -> list string -> option string -> Z * string;
  (** [b4.git_get_command_lines(gitdir, args)] *)
  git_get_command_lines : option string -> list string -> list string;
  git_commit_exists : option string -> string -> bool;
  git_branch_contains : option string -> string -> list string;
  get_user_config : gmap string string;
  get_main_config : gmap string string;
  (** [open(path).read()]; [None] stands for [FileNotFoundError] *)
  read_text : string -> option string;
  (** the bytes of the message that [string.Template] and the [email]
      package build from a template and a record *)
  render_message : string -> jsondata -> res string
}.

(** The parsed command line. [cmd_branch] is [None] when no branch was
    requested ([not cmdargs.branch]); [cmd_send] and [cmd_discard] are
    empty when the option was not given. *)
Record cmdargs : Type := {
  cmd_gitdir : option string;
  cmd_branch : option string;
  cmd_since : string;
  cmd_outdir : string;
  cmd_auto : bool;
  cmd_send : list string;
  cmd_discard : list string
}.

(** *** The monad of stateful code *)

Definition M (A : Type) : Type := world -> res A * world.

Definition ret {A} (a : A) : M A := fun w => (Ret a, w).
Definition raise {A} (e : exn) : M A := fun w => (Raise e, w).
Definition bind {A B} (m : M A) (k : A -> M B) : M B :=
  fun w => match m w with
           | (Ret a, w') => k a w'
           | (Raise e, w') => (Raise e, w')
           end.
Definition lift {A} (r : res A) : M A := fun w => (r, w).
Definition get : M world := fun w => (Ret w, w).
Definition put (w : world) : M unit := fun _ => (Ret tt, w).

Declare Scope py_scope.
Delimit Scope py_scope with py.
Notation "x <- c1 ;; c2" := (bind c1 (fun x => c2))
  (at level 100, c1 at next level, right associativity) : py_scope.
Notation "c1 ;; c2" := (bind c1 (fun _ => c2))
  (at level 100, right associativity) : py_scope.
Local Open Scope py_scope.

(** [sys.exit(code)] *)
Definition sys_exit {A} (code : Z) : M A := raise (SystemExit code).

(** [d[k]] on an optional key of a record *)
Definition getkey {A} (o : option A) : res A :=
  match o with
  | Some a => Ret a
  | None => Raise KeyError
  end.

(** [for x in l: body(x)] *)
Fixpoint for_each {A} (body : A -> M unit) (l : list A) : M unit :=
  match l with
  | [] => ret tt
  | x :: l' => body x ;; for_each body l'
  end.

(** *** Templates *)

Definition DEFAULT_PR_TEMPLATE : string := "
On ${sentdate} ${fromname} wrote:
${quote}

Merged, thanks!

Best regards,
-- 
${myname} <${myemail}>
".

Definition DEFAULT_AM_TEMPLATE : string := "
On ${sentdate} ${fromname} wrote:
${quote}

Applied, thanks!

Best regards,
-- 
${myname} <${myemail}>
".

(** *** Git queries *)

Section Locator.

Variable b : b4.

Definition git_get_merge_id (gitdir : option string) (commit_id : string)
  : option string :=
  let args := ["rev-list"; commit_id +:+ ".."; "--ancestry-path"] in
  let lines := git_get_command_lines b gitdir args in
  match lines with
  | [] => None
  | _ => last lines
  end.

Definition git_get_rev_diff (gitdir : option string) (rev : string)
  : Z * string :=
  let args := ["diff"; rev +:+ "~.." +:+ rev] in
  git_run_command b gitdir args None.

(** [make_reply(reply_template, jsondata)] followed by [msg.as_bytes]:
    the text is built by [string.Template] and the [email] package. *)
Definition make_reply (reply_template : string) (j : jsondata) : res string :=
  render_message b reply_template j.

(** *** Pull requests *)

Definition auto_locate_pr (gitdir : option string) (j : jsondata)
  (branch : string) : res (option string) :=
  res_bind (getkey (pr_commit_id j)) (fun pr_commit_id =>
  if negb (git_commit_exists b gitdir pr_commit_id) then Ret None else
  let onbranches := git_branch_contains b gitdir pr_commit_id in
  match onbranches with
  | [] => Ret None
  | _ =>
    if decide (branch ∈ onbranches) then
      (* Get the merge commit *)
      match git_get_merge_id gitdir pr_commit_id with
      | None => Ret None
      | Some merge_commit_id =>
        if decide (merge_commit_id = "") then Ret None else
        (* Check that we are the author of the merge commit *)
        let gitargs := ["show"; "--format=%ae"; merge_commit_id] in
        let out := git_get_command_lines b gitdir gitargs in
        match out with
        | [] => Ret None
        | _ =>
          let usercfg := get_user_config b in
          res_bind (getkey (usercfg !! "email")) (fun email =>
          if decide (email ∈ out) then Ret (Some merge_commit_id)
          else Ret None)
        end
      end
    else Ret None
  end).

(** *** The commit index *)

(** [MY_COMMITS[k] = v] *)
Definition MY_COMMITS_setitem (k : string) (v : string * string) : M unit :=
  fun w =>
    match MY_COMMITS w with
    | Some d =>
        (Ret tt, {| MY_COMMITS := Some (<[k := v]> d);
                    data_dir := data_dir w; out_dir := out_dir w |})
    | None => (Raise TypeError, w)
    end.

(** What one line of [git log --oneline] contributes: the first word
    of the [git patch-id --stable] output of the commit's diff, and the
    (commit-id, subject) pair of the line. *)
Definition patch_entry (gitdir : option string) (line : string)
  : res (string * (string * string)) :=
  match split_max1 line with
  | [commit_id; subject] =>
      let '(_, out) := git_get_rev_diff gitdir commit_id in
      let gitargs := ["patch-id"; "--stable"] in
      let '(_, out) := git_run_command b None gitargs (Some out) in
      let chunks := split out in
      res_bind (getitem chunks 0) (fun chunk0 =>
      Ret (chunk0, (commit_id, subject)))
  | _ => Raise ValueError
  end.

(** The body of the loop over the lines of the log. *)
Definition index_line (gitdir : option string) (line : string) : M unit :=
  e <- lift (patch_entry gitdir line) ;;
  MY_COMMITS_setitem e.1 e.2.

Definition get_all_commits (gitdir : option string) (branch since : string)
  (committer : option string) : M index :=
  w <- get ;;
  match MY_COMMITS w with
  | Some d => ret d
  | None =>
      put {| MY_COMMITS := Some ∅;
             data_dir := data_dir w; out_dir := out_dir w |} ;;
      committer <- match committer with
                   | None => lift (getkey (get_user_config b !! "email"))
                   | Some c => ret c
                   end ;;
      let gitargs := ["log"; "--committer"; committer; "--no-abbrev";
                      "--oneline"; "--since"; since; branch] in
      let lines := git_get_command_lines b gitdir gitargs in
      let return_MY_COMMITS : M index :=
        w' <- get ;;
        match MY_COMMITS w' with
        | Some d => ret d
        | None => raise TypeError
        end in
      match lines with
      | [] => return_MY_COMMITS
      | _ =>
          (* Get patch-id of each commit *)
          for_each (index_line gitdir) lines ;;
          return_MY_COMMITS
      end
  end.

(** *** Series *)

(** The loop of [auto_locate_series] over [jsondata['patches']]. *)
Fixpoint locate_patches (commits : index) (patchids : gset string)
  (ps : list (string * string)) (found : list (string * string))
  : res (list (string * string)) :=
  match ps with
  | [] => Ret found
  | patch :: ps' =>
      if decide (patch.2 ∈ patchids) then
        res_bind (getkey (commits !! patch.2)) (fun c =>
        locate_patches commits patchids ps' (found ++ [c]))
      else locate_patches commits patchids ps' found
  end.

Definition auto_locate_series (gitdir : option string) (j : jsondata)
  (branch since : string) : M (option (list (string * string))) :=
  commits <- get_all_commits gitdir branch since None ;;
  let patchids : gset string := dom commits in
  (* We need to find all of them in the commits *)
  ps <- lift (getkey (patches j)) ;;
  found <- lift (locate_patches commits patchids ps []) ;;
  if decide (length found = length ps) then ret (Some found)
  else ret None.

End Locator.

(** *** The tracked-item store *)

Definition set_data_dir (d : list file) (w : world) : world :=
  {| MY_COMMITS := MY_COMMITS w; data_dir := d; out_dir := out_dir w |}.

Definition set_out_dir (o : option (list (string * string))) (w : world)
  : world :=
  {| MY_COMMITS := MY_COMMITS w; data_dir := data_dir w; out_dir := o |}.

Definition rename_file (src dst : string) (f : file) : file :=
  if decide (f_name f = src)
  then {| f_name := dst; f_mtime := f_mtime f; f_ino := f_ino f;
          f_body := f_body f |}
  else f.

(** [os.rename(src, dst)] inside the data directory, as on POSIX: the
    record keeps its identity and modification time, and replaces a file
    already named [dst]; [FileNotFoundError] when [src] does not exist. *)
Definition os_rename (src dst : string) : M unit := fun w =>
  if decide (src ∈ f_name <$> data_dir w) then
    let kept := filter (fun f => f_name f ≠ dst ∨ f_name f = src) (data_dir w) in
    (Ret tt, set_data_dir (rename_file src dst <$> kept) w)
  else (Raise FileNotFoundError, w).

Fixpoint insert_by_mtime (f : file) (l : list file) : list file :=
  match l with
  | [] => [f]
  | g :: l' =>
      if f_mtime g <? f_mtime f then g :: insert_by_mtime f l' else f :: l
  end.

(** [sorted(paths, key=os.path.getmtime)]: ascending and stable. *)
Definition sorted_by_mtime (l : list file) : list file :=
  foldr insert_by_mtime [] l.

(** [open(outfile, 'wb')] and [fh.write] in the output directory. *)
Fixpoint write_file (name content : string) (d : list (string * string))
  : list (string * string) :=
  match d with
  | [] => [(name, content)]
  | (n, c) :: d' =>
      if decide (n = name) then (name, content) :: d'
      else (n, c) :: write_file name content d'
  end.

Definition write_out (name content : string) : M unit := fun w =>
  match out_dir w with
  | Some d => (Ret tt, set_out_dir (Some (write_file name content d)) w)
  | None => (Raise FileNotFoundError, w)
  end.

Section Store.

Variable b : b4.

Definition generate_pr_thanks (j : jsondata) : res string :=
  let config := get_main_config b in
  res_bind
    (match config !! "thanks-pr-template" with
     | Some path =>
         (* Try to load this template instead *)
         match read_text b path with
         | Some t => Ret t
         | None => Raise (SystemExit 2)
         end
     | None => Ret DEFAULT_PR_TEMPLATE
     end)
    (fun thanks_template => make_reply b thanks_template j).

Definition generate_am_thanks (j : jsondata) : res string :=
  let config := get_main_config b in
  res_bind
    (match config !! "thanks-am-template" with
     | Some path =>
         (* Try to load this template instead *)
         match read_text b path with
         | Some t => Ret t
         | None => Raise (SystemExit 2)
         end
     | None => Ret DEFAULT_AM_TEMPLATE
     end)
    (fun thanks_template => make_reply b thanks_template j).

(** The record that [list_tracked] builds from one file of the data
    directory. *)
Definition load_tracked (f : file) : res jsondata :=
  let usercfg := get_user_config b in
  res_bind (getkey (usercfg !! "name")) (fun name =>
  res_bind (getkey (usercfg !! "email")) (fun email =>
  let j := set_identity name email (f_name f) (f_body f) in
  if decide (suffix (f_name f) = ".pr")
  then Ret (set_pr_commit_id (stem (f_name f)) j)
  else Ret j)).

Fixpoint load_all (paths : list file) : res (list jsondata) :=
  match paths with
  | [] => Ret []
  | f :: paths' =>
      if decide (suffix (f_name f) = ".pr" ∨ suffix (f_name f) = ".am") then
        res_bind (load_tracked f) (fun j =>
        res_bind (load_all paths') (fun tracked => Ret (j :: tracked)))
      else load_all paths'
  end.

Definition list_tracked : M (list jsondata) :=
  (* find all tracked bits *)
  w <- get ;;
  let paths := sorted_by_mtime (data_dir w) in
  lift (load_all paths).

(** [write_tracked] only logs the listing. *)
Definition write_tracked (tracked : list jsondata) : M unit := ret tt.

Definition send_one (j : jsondata) : M unit :=
  let slug_from := sub_nonword (fromemail j) in
  let slug_subj := sub_nonword (subject j) in
  let slug := lower slug_from +:+ "_" +:+ lower slug_subj in
  let slug := squeeze_underscores slug in
  msg <- lift (match pr_commit_id j with
               | Some _ => generate_pr_thanks j   (* a pull request *)
               | None => generate_am_thanks j     (* a patch series *)
               end) ;;
  let outfile := slug +:+ ".thanks" in
  write_out outfile msg ;;
  fullpath <- lift (getkey (trackfile j)) ;;
  os_rename fullpath (fullpath +:+ ".sent").

Definition send_messages (listing : list jsondata) (outdir : string)
  : M unit :=
  w <- get ;;
  (match out_dir w with
   | None => put (set_out_dir (Some []) w)     (* os.mkdir(outdir) *)
   | Some _ => ret tt
   end) ;;
  for_each send_one listing.

(** The loop of [send_selected] and [discard_selected] over the
    user-supplied numbers; both [except] branches list the tracked items
    and leave with status 1. *)
Fixpoint select (tracked : list jsondata) (nums : list string)
  (listing : list jsondata) : M (list jsondata) :=
  match nums with
  | [] => ret listing
  | num :: nums' =>
      match res_bind (int num) (fun n => getitem tracked (n - 1)) with
      | Ret j => select tracked nums' (listing ++ [j])
      | Raise ValueError => write_tracked tracked ;; sys_exit 1
      | Raise IndexError => write_tracked tracked ;; sys_exit 1
      | Raise e => raise e
      end
  end.

Definition send_selected (c : cmdargs) : M unit :=
  tracked <- list_tracked ;;
  match tracked with
  | [] => sys_exit 0
  | _ =>
      listing <- select tracked (cmd_send c) [] ;;
      match listing with
      | [] => sys_exit 0
      | _ => send_messages listing (cmd_outdir c)
      end
  end.

Definition discard_one (j : jsondata) : M unit :=
  fullpath <- lift (getkey (trackfile j)) ;;
  os_rename fullpath (fullpath +:+ ".discarded").

Definition discard_selected (c : cmdargs) : M unit :=
  tracked <- list_tracked ;;
  match tracked with
  | [] => sys_exit 0
  | _ =>
      listing <- (if decide ("_all" ∈ cmd_discard c) then ret tracked
                  else select tracked (cmd_discard c) []) ;;
      match listing with
      | [] => sys_exit 0
      | _ => for_each discard_one listing ;; sys_exit 0
      end
  end.

Definition check_stale_thanks (outdir : string) : M unit :=
  w <- get ;;
  match out_dir w with
  | Some entries =>
      for_each (fun entry : string * string =>
                  if decide (suffix entry.1 = ".thanks") then sys_exit 1
                  else ret tt) entries
  | None => ret tt
  end.

(** The loop of [auto_thankanator] over the tracked items. *)
Fixpoint locate_all (gitdir : option string) (wantbranch since : string)
  (tracked applied : list jsondata) : M (list jsondata) :=
  match tracked with
  | [] => ret applied
  | j :: tracked' =>
      match pr_commit_id j with
      | Some _ =>
          (* this is a pull request *)
          merge_commit_id <- lift (auto_locate_pr b gitdir j wantbranch) ;;
          match merge_commit_id with
          | None => locate_all gitdir wantbranch since tracked' applied
          | Some m =>
              locate_all gitdir wantbranch since tracked'
                (applied ++ [set_merge_commit_id m j])
          end
      | None =>
          (* This is a patch series *)
          ps <- auto_locate_series b gitdir j wantbranch since ;;
          match ps with
          | None => locate_all gitdir wantbranch since tracked' applied
          | Some _ =>
              locate_all gitdir wantbranch since tracked' (applied ++ [j])
          end
      end
  end.

Definition auto_thankanator (c : cmdargs) : M unit :=
  let gitdir := cmd_gitdir c in
  wantbranch <-
    match cmd_branch c with
    | Some br =>
        (* Make sure it's a real branch *)
        let gitargs := ["branch"; "--format=%(refname:short)"; "--list"] in
        let lines := git_get_command_lines b gitdir gitargs in
        match lines with
        | [] => sys_exit 1
        | _ => if decide (br ∈ lines) then ret br else sys_exit 1
        end
    | None =>
        (* Find out our current branch *)
        let '(ecode, out) :=
          git_run_command b gitdir ["branch"; "--show-current"] None in
        if 0 <? ecode then sys_exit 1 else ret (strip out)
    end ;;
  tracked <- list_tracked ;;
  match tracked with
  | [] => sys_exit 0
  | _ =>
      applied <- locate_all gitdir wantbranch (cmd_since c) tracked [] ;;
      match applied with
      | [] => sys_exit 0
      | _ => send_messages applied (cmd_outdir c) ;; sys_exit 0
      end
  end.

Definition main (c : cmdargs) : M unit :=
  let usercfg := get_user_config b in
  match usercfg !! "email" with
  | None => sys_exit 1
  | Some _ =>
      if cmd_auto c then
        auto_thankanator c ;;
        check_stale_thanks (cmd_outdir c)
      else
        match cmd_send c with
        | _ :: _ =>
            send_selected c ;;
            check_stale_thanks (cmd_outdir c)
        | [] =>
            match cmd_discard c with
            | _ :: _ => discard_selected c
            | [] =>
                tracked <- list_tracked ;;
                match tracked with
                | [] => sys_exit 0
                | _ => write_tracked tracked
                end
            end
        end
  end.

End Store.

End Ty.

(** ** The headers of a reply *)

(** The parts of [make_reply] that compute the recipients, the subject,
    the references and the domain of the message-id. The address lists
    are those that [email.utils.getaddresses] parsed from the [to] and
    [cc] fields of the record: pairs of a name and an address. *)
Module Reply.
Import Py Ty.

(** [l.remove(x)]: drop the first element equal to [x]; [ValueError]
    when there is none. *)
Fixpoint list_remove {A} `{EqDecision A} (x : A) (l : list A) : res (list A) :=
  match l with
  | [] => Raise ValueError
  | y :: l' =>
      if decide (y = x) then Ret l'
      else res_bind (list_remove x l') (fun r => Ret (y :: r))
  end.

(** The loop [for entry in list(allto): if entry[1] == myemail or
    entry[1] == fromemail: allto.remove(entry)]: [copy] is what is left
    of the copy that the loop walks, [all] the list that it changes. *)
Fixpoint remove_ourselves (myemail fromemail : string)
  (copy all : list (string * string)) : res (list (string * string)) :=
  match copy with
  | [] => Ret all
  | entry :: copy' =>
      if decide (entry.2 = myemail \/ entry.2 = fromemail) then
        res_bind (list_remove entry all)
          (remove_ourselves myemail fromemail copy')
      else remove_ourselves myemail fromemail copy' all
  end.

(** The [To] and [Cc] lists of the reply. *)
Definition reply_recipients (allto allcc : list (string * string))
  (j : jsondata)
  : res (list (string * string) * list (string * string)) :=
  res_bind (getkey (myemail j)) (fun myemail =>
  (* Remove ourselves and original sender from allto or allcc *)
  res_bind (remove_ourselves myemail (fromemail j) allto allto) (fun allto =>
  res_bind (remove_ourselves myemail (fromemail j) allcc allcc) (fun allcc =>
  (* Add original sender to the To *)
  let allto := (allto ++ [(fromname j, fromemail j)])%list in
  Ret (allto, allcc)))).

(** [s.find(sub)], counting positions from [pos]: the position of the
    first occurrence of [sub], or -1. *)
Fixpoint find_from (sub s : string) (pos : Z) : Z :=
  if String.prefix sub s then pos
  else match s with
       | EmptyString => -1
       | String _ s' => find_from sub s' (pos + 1)
       end.

Definition find (s sub : string) : Z := find_from sub s 0.

(** The [Subject] of the reply. *)
Definition reply_subject (subject : string) : string :=
  if find subject "Re: " <? 0 then "Re: " +:+ subject else subject.

(** The [References] of the reply. *)
Definition reply_references (references msgid : string) : string :=
  match references with
  | EmptyString => "<" +:+ msgid +:+ ">"
  | _ => references +:+ " <" +:+ msgid +:+ ">"
  end.

(** [s.split(sep)] for a separator of one character. *)
Fixpoint split_on (sep : ascii) (s : string) : list string :=
  match s with
  | EmptyString => [EmptyString]
  | String c s' =>
      if Ascii.eqb c sep then EmptyString :: split_on sep s'
      else match split_on sep s' with
           | w :: ws => String c w :: ws
           | [] => [String c EmptyString]
           end
  end.

(** [myemail.split('@')[1]], the domain of the message-id. *)
Definition reply_domain (myemail : string) : res string :=
  getitem (split_on "@" myemail) 1.

End Reply.

(** ** Notions used in the statements *)

Module Notions.
Import Py Ty.

(** The committer whose commits [get_all_commits] lists. *)
Definition committer_email (b : b4) (committer : option string)
  : option string :=
  match committer with
  | Some c => Some c
  | None => get_user_config b !! "email"
  end.

(** The lines of the [git log] call of [get_all_commits]. Git lists the
    commits in reverse chronological order: the most recent one first. *)
Definition log_lines (b : b4) (gitdir : option string)
  (branch since committer : string) : list string :=
  git_get_command_lines b gitdir
    ["log"; "--committer"; committer; "--no-abbrev"; "--oneline";
     "--since"; since; branch].

(** The output of [git patch-id --stable] on the diff of a commit. *)
Definition patch_id_output (b : b4) (gitdir : option string)
  (commit_id : string) : string :=
  (git_run_command b None ["patch-id"; "--stable"]
     (Some (git_get_rev_diff b gitdir commit_id).2)).2.

(** The entries of the lines up to the first line that raises, with the
    exception raised there. *)
Fixpoint collect (b : b4) (gitdir : option string) (lines : list string)
  : list (string * (string * string)) * option exn :=
  match lines with
  | [] => ([], None)
  | line :: lines' =>
      match patch_entry b gitdir line with
      | Ret e =>
          let '(es, x) := collect b gitdir lines' in (e :: es, x)
      | Raise x => ([], Some x)
      end
  end.

(** The index after the assignments [MY_COMMITS[k] = v] for the entries
    in order. *)
Definition assign_all (d : index) (es : list (string * (string * string)))
  : index :=
  foldl (fun d e => <[e.1 := e.2]> d) d es.

Definition with_commits (d : index) (w : world) : world :=
  {| MY_COMMITS := Some d; data_dir := data_dir w; out_dir := out_dir w |}.

(** In the words of the specification: of the commits with patch
    identity [pid], the most recent one, which is the first that
    [git log] lists. *)
Definition most_recent_with (b : b4) (gitdir : option string) (pid : string)
  (lines : list string) : option (string * string) :=
  snd <$> head (filter (fun e => e.1 = pid) (collect b gitdir lines).1).

(** The two terminal markers of a tracked item. *)
Inductive marker : Type := Sent | Discarded.

Definition marker_suffix (m : marker) : string :=
  match m with
  | Sent => ".sent"
  | Discarded => ".discarded"
  end.

(** The rename that [send_messages] and [discard_selected] perform on
    the file of a tracked item. *)
Definition transition (m : marker) (trackfile : string) : M unit :=
  os_rename trackfile (trackfile +:+ marker_suffix m).

(** A sequence of transitions, one after the other. *)
Definition transitions (ts : list (marker * string)) : M unit :=
  for_each (fun t => transition t.1 t.2) ts.

(** A selection entry that is not a number, or a number above the
    count of tracked items. *)
Definition invalid_entry (tracked : list jsondata) (num : string) : Prop :=
  int num = Raise ValueError \/
  exists n, int num = Ret n /\ Z.of_nat (length tracked) < n.

(** The listing of the tracked items of a world, when there is one. *)
Definition load_all_value (b : b4) (w : world) : list jsondata :=
  match load_all b (sorted_by_mtime (data_dir w)) with
  | Ret tracked => tracked
  | Raise _ => []
  end.

(** A computation that ends in an exception from every world. *)
Definition never_returns {A} (m : M A) : Prop :=
  forall w, exists e w', m w = (Raise e, w').

(** The names that [list_tracked] reads. *)
Definition is_tracked_name (n : string) : Prop :=
  suffix n = ".pr" \/ suffix n = ".am".

(** Ascending order of modification times. *)
Definition mtime_le (f g : file) : Prop := f_mtime f <= f_mtime g.

(** The output directory holds a file with the suffix [.thanks]. *)
Definition has_stale_thanks (w : world) : Prop :=
  exists entries e,
    out_dir w = Some entries /\ e ∈ entries /\ suffix e.1 = ".thanks".

(** The slug that [send_messages] builds from the sender address and
    the subject of an item. *)
Definition thanks_slug (j : jsondata) : string :=
  squeeze_underscores
    (lower (sub_nonword (fromemail j)) +:+ "_" +:+
     lower (sub_nonword (subject j))).

Fixpoint all_chars (P : ascii -> bool) (s : string) : bool :=
  match s with
  | EmptyString => true
  | String c s' => P c && all_chars P s'
  end.

(** A character of ASCII text. *)
Definition is_ascii (c : ascii) : bool := (nat_of_ascii c <? 128)%nat.

(** A lower-case letter, a digit or the underscore. *)
Definition is_slug_char (c : ascii) : bool :=
  let n := nat_of_ascii c in
  ((48 <=? n) && (n <=? 57) || (97 <=? n) && (n <=? 122) || (n =? 95))%nat.

(** No underscore is followed by an underscore. *)
Fixpoint no_double_underscore (s : string) : bool :=
  match s with
  | EmptyString => true
  | String c s' =>
      match s' with
      | String c' _ =>
          negb (Ascii.eqb c "_" && Ascii.eqb c' "_") && no_double_underscore s'
      | EmptyString => true
      end
  end.

End Notions.

(** ** Concrete repositories and stores *)

Module Scenarios.
Import Py Ty.

(** A backend given by its answers: the lines and the output of each git
    command, the commits that exist with the branches containing them,
    and [user.email]. *)
Definition backend (cmd_lines : list string -> list string)
  (cmd_run : list string -> option string -> Z * string)
  (branches : string -> option (list string)) (email : string) : b4 :=
  {| git_run_command := fun _ args stdin => cmd_run args stdin;
     git_get_command_lines := fun _ args => cmd_lines args;
     git_commit_exists := fun _ c => bool_decide (is_Some (branches c));
     git_branch_contains := fun _ c => default [] (branches c);
     get_user_config := {[ "name" := "Bob"; "email" := email ]};
     get_main_config := ∅;
     read_text := fun _ => None;
     render_message := fun _ j => Ret ("Subject: Re: " +:+ subject j) |}.

Definition record (subj : string) (ps : option (list (string * string)))
  : jsondata :=
  {| subject := subj; fromname := "Alice"; fromemail := "alice@example.com";
     sentdate := "Mon, 1 Jun 2020"; msgid := "m1@example.com";
     references := ""; to := "list@example.com"; cc := "";
     patches := ps; myname := None; myemail := None; trackfile := None;
     pr_commit_id := None; merge_commit_id := None |}.

(** Scenarios A and B: a series of two patches. *)
Definition series2 : jsondata :=
  record "[PATCH 0/2] tidy" (Some [("1/2", "p1"); ("2/2", "p2")]).

Definition index_p1 : index := {[ "p1" := ("c1", "subj1") ]}.
Definition index_p1_p2 : index :=
  {[ "p2" := ("c2", "subj2"); "p1" := ("c1", "subj1") ]}.

Definition with_index (d : index) : world :=
  {| MY_COMMITS := Some d; data_dir := []; out_dir := None |}.

Definition fresh (d : list file) (o : option (list (string * string)))
  : world :=
  {| MY_COMMITS := None; data_dir := d; out_dir := o |}.

Definition no_git : b4 :=
  backend (fun _ => []) (fun _ _ => (0, "")) (fun _ => None) "bob@example.com".

(** Scenario C: the pull request commit [X] is on [main]; the ancestry
    path from [X] ends in the merge [M], authored by alice. *)
Definition merged_by_alice (email : string) : b4 :=
  backend
    (fun args =>
       if decide (args = ["rev-list"; "X.."; "--ancestry-path"])
       then ["T"; "M"]
       else if decide (args = ["show"; "--format=%ae"; "M"])
       then ["alice@example.com"] else [])
    (fun _ _ => (0, ""))
    (fun c => if decide (c = "X") then Some ["main"] else None)
    email.

Definition pull_request : jsondata :=
  set_pr_commit_id "X" (record "[GIT PULL] fixes" None).

(** The pull request commit [X] was merged into [main] by the merge [M]
    of bob, but another branch is checked out, and [X] is not an
    ancestor of its tip: [git rev-list X..] lists nothing, while
    [git rev-list X..main] lists the path to the tip of [main]. *)
Definition head_elsewhere : b4 :=
  backend
    (fun args =>
       if decide (args = ["rev-list"; "X.."; "--ancestry-path"])
       then []
       else if decide (args = ["rev-list"; "X..main"; "--ancestry-path"])
       then ["T"; "M"]
       else if decide (args = ["show"; "--format=%ae"; "M"])
       then ["bob@example.com"] else [])
    (fun _ _ => (0, ""))
    (fun c => if decide (c = "X") then Some ["main"] else None)
    "bob@example.com".

(** Two commits of bob on [main] with the same patch-id: [c2c2] is the
    more recent and is listed first. *)
Definition same_patch_twice : b4 :=
  backend
    (fun args =>
       if decide (args = ["log"; "--committer"; "bob@example.com";
                          "--no-abbrev"; "--oneline"; "--since"; "1.week";
                          "main"])
       then ["c2c2 fix typo again"; "c1c1 fix typo"] else [])
    (fun args stdin =>
       match args with
       | ["diff"; _] => (0, "diff --git a/README b/README")
       | ["patch-id"; "--stable"] => (0, "p1p1 0000")
       | _ => (0, "")
       end)
    (fun _ => None) "bob@example.com".

(** The only commit of bob on [main] is the root commit [r0r0]:
    [git diff r0r0~..r0r0] fails without output, and [git patch-id]
    prints nothing for an empty input. *)
Definition root_commit_only : b4 :=
  backend
    (fun args =>
       if decide (args = ["log"; "--committer"; "bob@example.com";
                          "--no-abbrev"; "--oneline"; "--since"; "1.week";
                          "main"])
       then ["r0r0 initial import"] else [])
    (fun args stdin =>
       match args with
       | ["diff"; _] => (128, "")
       | _ => (0, "")
       end)
    (fun _ => None) "bob@example.com".

Definition tracked_file (n : string) (t : Z) (i : nat) (j : jsondata)
  : file :=
  {| f_name := n; f_mtime := t; f_ino := i; f_body := j |}.

(** A data directory with a series and a pull request; the pull
    request is the older record. *)
Definition store2 : list file :=
  [tracked_file "m2.am" 200 12 series2;
   tracked_file "X.pr" 100 11 (record "[GIT PULL] fixes" None)].

Definition store1 : list file := [tracked_file "m2.am" 200 12 series2].

(** An output directory with a message left from an earlier run. *)
Definition stale_out : option (list (string * string)) :=
  Some [("alice_example_com_old.thanks", "Subject: Re: old")].

Definition cmd (auto : bool) (send discard : list string) : cmdargs :=
  {| cmd_gitdir := None; cmd_branch := None; cmd_since := "1.week";
     cmd_outdir := "."; cmd_auto := auto; cmd_send := send;
     cmd_discard := discard |}.

(** Scenario D, with both patches of [series2] applied on [main], the
    checked-out branch. *)
Definition series_applied : b4 :=
  backend
    (fun args =>
       if decide (args = ["log"; "--committer"; "bob@example.com";
                          "--no-abbrev"; "--oneline"; "--since"; "1.week";
                          "main"])
       then ["c2c2 tidy two"; "c1c1 tidy one"] else [])
    (fun args stdin =>
       match args with
       | ["branch"; "--show-current"] => (0, "main ")
       | ["diff"; r] => (0, "diff " +:+ r)
       | ["patch-id"; "--stable"] =>
           if decide (stdin = Some "diff c1c1~..c1c1") then (0, "p1 0000")
           else if decide (stdin = Some "diff c2c2~..c2c2")
                then (0, "p2 0000") else (0, "")
       | _ => (0, "")
       end)
    (fun _ => None) "bob@example.com".

(** A configuration that names a template for series, which does not
    exist. *)
Definition template_missing : b4 :=
  {| git_run_command := fun _ _ _ => (0, "");
     git_get_command_lines := fun _ _ => [];
     git_commit_exists := fun _ _ => false;
     git_branch_contains := fun _ _ => [];
     get_user_config := {[ "name" := "Bob"; "email" := "bob@example.com" ]};
     get_main_config := {[ "thanks-am-template" := "/home/bob/am.tpl" ]};
     read_text := fun _ => None;
     render_message := fun _ j => Ret ("Subject: Re: " +:+ subject j) |}.

(** A series without patches. *)
Definition series0 : jsondata := record "[PATCH 0/0] cover only" (Some []).

End Scenarios.

Import Py Ty Notions.
Local Open Scope py_scope.
Local Open Scope list_scope.

(** Evaluate the left-hand side of an equation between closed terms. *)
Ltac eval_lhs :=
  match goal with
  | |- ?l = _ => let v := eval vm_compute in l in change l with v
  end.

(** ** The series locator *)

Section Series.

Context (b : b4).

(** The loop appends, for every patch in order, the index entry of its
    patch-id when there is one. *)
Lemma locate_patches_omap (commits : index) (ps found : list (string * string)) :
  locate_patches commits (dom commits) ps found =
  Ret (found ++ omap (fun patch => commits !! patch.2) ps).
Proof.
  revert found. induction ps as [|patch ps IH]; intros found; csimpl.
  - by rewrite app_nil_r.
  - destruct (decide (patch.2 ∈ dom commits)) as [Hin|Hout].
    + apply elem_of_dom in Hin as [c Hc]. rewrite Hc. csimpl.
      rewrite IH. by rewrite <- app_assoc.
    + apply not_elem_of_dom in Hout. rewrite Hout. apply IH.
Qed.

Lemma omap_length_le {A B} (f : A -> option B) (l : list A) :
  (length (omap f l) <= length l)%nat.
Proof.
  induction l as [|x l IH]; csimpl; [lia|].
  destruct (f x); csimpl; lia.
Qed.

Lemma omap_length_missing {A B} (f : A -> option B) (l : list A) x :
  x ∈ l -> f x = None -> (length (omap f l) < length l)%nat.
Proof.
  induction l as [|y l IH]; intros Hin Hx; [by apply elem_of_nil in Hin|].
  apply elem_of_cons in Hin as [->|Hin]; csimpl.
  - rewrite Hx. pose proof (omap_length_le f l). lia.
  - specialize (IH Hin Hx). destruct (f y); csimpl; lia.
Qed.

Lemma omap_all_found {A B} (f : A -> option B) (l : list A) :
  (forall x, x ∈ l -> is_Some (f x)) ->
  Forall2 (fun x y => f x = Some y) l (omap f l).
Proof.
  induction l as [|x l IH]; intros Hall; csimpl; [constructor|].
  destruct (Hall x) as [y Hy]; [by left|]. rewrite Hy.
  constructor; [done|]. apply IH. intros z Hz. apply Hall. by right.
Qed.

(** How [auto_locate_series] runs once the index is known. *)
Lemma auto_locate_series_run gitdir j branch since w commits w' ps :
  get_all_commits b gitdir branch since None w = (Ret commits, w') ->
  patches j = Some ps ->
  auto_locate_series b gitdir j branch since w =
  (Ret (let found := omap (fun patch => commits !! patch.2) ps in
        if decide (length found = length ps) then Some found else None), w').
Proof.
  intros Hidx Hps. unfold auto_locate_series, bind, lift, ret.
  rewrite Hidx, Hps. simpl. rewrite locate_patches_omap. simpl.
  by destruct (decide _).
Qed.

(** C1. The series locator is all-or-nothing. When one patch of the
    series has a patch-id without an entry in the commit index, the
    result is [None]; and a list that is returned is never shorter than
    the patch list of the item. *)
Theorem auto_locate_series_all_or_nothing gitdir j branch since w commits w' ps :
  get_all_commits b gitdir branch since None w = (Ret commits, w') ->
  patches j = Some ps ->
  ((exists patch, patch ∈ ps /\ commits !! patch.2 = None) ->
   auto_locate_series b gitdir j branch since w = (Ret None, w')) /\
  (forall found w'',
     auto_locate_series b gitdir j branch since w = (Ret (Some found), w'') ->
     length found = length ps).
Proof.
  intros Hidx Hps.
  rewrite (auto_locate_series_run _ _ _ _ _ _ _ _ Hidx Hps). simpl. split.
  - intros (patch & Hin & Hnone).
    pose proof (omap_length_missing (fun p : string * string => commits !! p.2)
                  ps patch Hin Hnone) as Hlt.
    destruct (decide _) as [Heq|]; [lia|done].
  - intros found w''. destruct (decide _) as [Heq|]; [|done].
    intros [= <- _]. exact Heq.
Qed.

(** C2. When every patch-id of the series has an entry in the commit
    index, the result lists the (commit-id, subject) pairs of the patches
    one for one in the order of [jsondata['patches']]. *)
Theorem auto_locate_series_preserves_order gitdir j branch since w commits w' ps :
  get_all_commits b gitdir branch since None w = (Ret commits, w') ->
  patches j = Some ps ->
  (forall patch, patch ∈ ps -> is_Some (commits !! patch.2)) ->
  exists found,
    auto_locate_series b gitdir j branch since w = (Ret (Some found), w') /\
    Forall2 (fun patch c => commits !! patch.2 = Some c) ps found.
Proof.
  intros Hidx Hps Hall.
  rewrite (auto_locate_series_run _ _ _ _ _ _ _ _ Hidx Hps). simpl.
  pose proof (omap_all_found (fun p : string * string => commits !! p.2) ps Hall)
    as Hf2.
  exists (omap (fun p : string * string => commits !! p.2) ps). split; [|done].
  destruct (decide _) as [|Hne]; [done|].
  exfalso. apply Hne. symmetry. by eapply Forall2_length.
Qed.

End Series.

(** ** The pull-request locator *)

Section PullRequest.

Context (b : b4).

(** The merge commit is the last line of
    [git rev-list <commit>.. --ancestry-path]. *)
Lemma git_get_merge_id_last gitdir commit_id :
  git_get_merge_id b gitdir commit_id =
  last (git_get_command_lines b gitdir
          ["rev-list"; commit_id +:+ ".."; "--ancestry-path"]).
Proof.
  unfold git_get_merge_id.
  by destruct (git_get_command_lines b gitdir _).
Qed.

(** After the existence and branch checks, the answer depends on
    whether the configured email is one of the lines of [git show]. *)
Lemma auto_locate_pr_run gitdir j branch pr m out email :
  pr_commit_id j = Some pr ->
  git_commit_exists b gitdir pr = true ->
  branch ∈ git_branch_contains b gitdir pr ->
  git_get_merge_id b gitdir pr = Some m -> m <> "" ->
  git_get_command_lines b gitdir ["show"; "--format=%ae"; m] = out ->
  out <> [] ->
  get_user_config b !! "email" = Some email ->
  auto_locate_pr b gitdir j branch =
  Ret (if decide (email ∈ out) then Some m else None).
Proof.
  intros Hpr Hex Hbr Hm Hne Hout Hnil Hcfg. unfold auto_locate_pr.
  rewrite Hpr. simpl. rewrite Hex. simpl.
  destruct (git_branch_contains b gitdir pr) as [|br brs] eqn:Hon;
    [by apply elem_of_nil in Hbr|].
  destruct (decide (branch ∈ br :: brs)); [|done].
  rewrite Hm. destruct (decide (m = "")); [done|].
  rewrite Hout. destruct out as [|o out]; [done|].
  rewrite Hcfg. simpl. by destruct (decide _).
Qed.

(** The author guard. For a pull request whose commit exists and is on
    the target branch, when [git_get_merge_id] finds the commit [m] on
    the path to the checked-out commit and the author query answers with
    the author's email (followed by the lines of the patch text, none of
    which is the configured email): the locator returns [None] when the
    author is not the local user, and [m] when it is. *)
Theorem auto_locate_pr_author_guard gitdir j branch pr m author rest email :
  pr_commit_id j = Some pr ->
  git_commit_exists b gitdir pr = true ->
  branch ∈ git_branch_contains b gitdir pr ->
  git_get_merge_id b gitdir pr = Some m -> m <> "" ->
  git_get_command_lines b gitdir ["show"; "--format=%ae"; m] = author :: rest ->
  email ∉ rest ->
  get_user_config b !! "email" = Some email ->
  (author <> email -> auto_locate_pr b gitdir j branch = Ret None) /\
  (author = email -> auto_locate_pr b gitdir j branch = Ret (Some m)).
Proof.
  intros Hpr Hex Hbr Hm Hne Hout Hrest Hcfg.
  rewrite (auto_locate_pr_run gitdir j branch pr m (author :: rest) email)
    by done.
  split; intros Hauthor.
  - destruct (decide _) as [Hin|]; [|done].
    apply elem_of_cons in Hin as [->|Hin]; done.
  - destruct (decide _) as [|Hout']; [done|].
    exfalso. apply Hout'. subst. by left.
Qed.

(** Without a line from [git rev-list <commit>..], which walks to the
    checked-out commit, the locator answers [None] for every requested
    branch. *)
Lemma auto_locate_pr_needs_head_path gitdir j branch pr :
  pr_commit_id j = Some pr ->
  git_get_command_lines b gitdir
    ["rev-list"; pr +:+ ".."; "--ancestry-path"] = [] ->
  auto_locate_pr b gitdir j branch = Ret None.
Proof.
  intros Hpr Hnil. unfold auto_locate_pr, git_get_merge_id.
  rewrite Hpr. cbn [res_bind getkey]. rewrite Hnil.
  destruct (git_commit_exists b gitdir pr); simpl; [|done].
  destruct (git_branch_contains b gitdir pr); [done|].
  by destruct (decide _).
Qed.

End PullRequest.

(** Scenario C of the specification. *)
Lemma auto_locate_pr_author_guard_witness :
  auto_locate_pr (Scenarios.merged_by_alice "bob@example.com") None
    Scenarios.pull_request "main" = Ret None /\
  auto_locate_pr (Scenarios.merged_by_alice "alice@example.com") None
    Scenarios.pull_request "main" = Ret (Some "M").
Proof.
  split.
  - apply (auto_locate_pr_author_guard
             (Scenarios.merged_by_alice "bob@example.com") None
             Scenarios.pull_request "main" "X" "M" "alice@example.com" []
             "bob@example.com");
      try reflexivity; try (vm_compute; congruence);
      try (vm_compute; constructor); try apply not_elem_of_nil.
  - apply (auto_locate_pr_author_guard
             (Scenarios.merged_by_alice "alice@example.com") None
             Scenarios.pull_request "main" "X" "M" "alice@example.com" []
             "alice@example.com");
      try reflexivity; try (vm_compute; congruence);
      try (vm_compute; constructor); try apply not_elem_of_nil.
Defined.

(** C4. The pull request commit [X] is on the requested branch [main],
    the ancestry path from [X] to the tip of [main] ends in the merge [M]
    authored by the local user, and the locator answers [None]: it walks
    the path to the checked-out commit, not to the tip of [main]. *)
Theorem auto_locate_pr_ignores_target_branch :
  let b := Scenarios.head_elsewhere in
  git_commit_exists b None "X" = true /\
  "main" ∈ git_branch_contains b None "X" /\
  last (git_get_command_lines b None
          ["rev-list"; "X..main"; "--ancestry-path"]) = Some "M" /\
  git_get_command_lines b None ["show"; "--format=%ae"; "M"] =
    ["bob@example.com"] /\
  get_user_config b !! "email" = Some "bob@example.com" /\
  auto_locate_pr b None Scenarios.pull_request "main" = Ret None.
Proof.
  repeat split; try reflexivity.
  vm_compute. constructor.
Qed.

(** C5. The pull request commit [X] exists and is on the target branch
    [main], the merge [M] integrated it there, and the author of [M] is
    the local user. The merge commit is due, and the locator answers
    [None]: it looks for the merge on the path to the checked-out
    commit, which here does not descend from [X]. *)
Theorem auto_locate_pr_misses_own_merge :
  let b := Scenarios.head_elsewhere in
  pr_commit_id Scenarios.pull_request = Some "X" /\
  git_commit_exists b None "X" = true /\
  "main" ∈ git_branch_contains b None "X" /\
  last (git_get_command_lines b None
          ["rev-list"; "X..main"; "--ancestry-path"]) = Some "M" /\
  head (git_get_command_lines b None ["show"; "--format=%ae"; "M"]) =
    get_user_config b !! "email" /\
  auto_locate_pr b None Scenarios.pull_request "main" = Ret None /\
  auto_locate_pr b None Scenarios.pull_request "main" <> Ret (Some "M").
Proof.
  repeat split; try reflexivity.
  - vm_compute. constructor.
  - vm_compute. discriminate.
Qed.

(** ** The commit index *)

Section CommitIndex.

Context (b : b4) (gitdir : option string).

Lemma getitem_0 {A} (l : list A) :
  getitem l 0 = match l with [] => Raise IndexError | x :: _ => Ret x end.
Proof.
  destruct l as [|x l]; [reflexivity|].
  unfold getitem. cbn [length].
  replace (0 <? 0) with false by reflexivity. cbn [orb].
  destruct (Z.leb_spec (Z.of_nat (S (length l))) 0); [lia|reflexivity].
Qed.

(** A line with two fields raises [IndexError] exactly when the
    patch-id output has no word. *)
Lemma patch_entry_fields line commit_id subj :
  split_max1 line = [commit_id; subj] ->
  patch_entry b gitdir line =
  match split (patch_id_output b gitdir commit_id) with
  | [] => Raise IndexError
  | chunk0 :: _ => Ret (chunk0, (commit_id, subj))
  end.
Proof.
  intros Hline. unfold patch_entry, patch_id_output. rewrite Hline.
  destruct (git_get_rev_diff b gitdir commit_id) as [ecode out]. simpl.
  destruct (git_run_command b None _ (Some out)) as [ecode' out']. simpl.
  rewrite getitem_0. by destruct (split out').
Qed.

Lemma patch_entry_raises line e :
  patch_entry b gitdir line = Raise e -> e = ValueError \/ e = IndexError.
Proof.
  unfold patch_entry.
  destruct (split_max1 line) as [|c [|s [|x l]]];
    try (intros [= <-]; by left).
  destruct (git_get_rev_diff b gitdir c) as [ecode out].
  destruct (git_run_command b None _ (Some out)) as [ecode' out'].
  rewrite getitem_0. destruct (split out'); [|done].
  intros [= <-]. by right.
Qed.

Lemma patch_entry_value_error line :
  patch_entry b gitdir line = Raise ValueError ->
  length (split_max1 line) <> 2%nat.
Proof.
  unfold patch_entry.
  destruct (split_max1 line) as [|c [|s [|x l]]]; try done.
  destruct (git_get_rev_diff b gitdir c) as [ecode out].
  destruct (git_run_command b None _ (Some out)) as [ecode' out'].
  rewrite getitem_0. by destruct (split out').
Qed.

(** The loop over the lines performs the assignments of [collect] and
    stops at the first line that raises. *)
Lemma index_lines_run lines d w :
  MY_COMMITS w = Some d ->
  for_each (index_line b gitdir) lines w =
  (match (collect b gitdir lines).2 with
   | None => Ret tt
   | Some x => Raise x
   end,
   with_commits (assign_all d (collect b gitdir lines).1) w).
Proof.
  revert d w. induction lines as [|line lines IH]; intros d w Hd.
  - simpl. unfold ret, with_commits. rewrite <- Hd. by destruct w.
  - cbn [for_each collect]. unfold bind at 1, index_line, bind, lift.
    destruct (patch_entry b gitdir line) as [e|x].
    + unfold MY_COMMITS_setitem. rewrite Hd.
      rewrite (IH (<[e.1 := e.2]> d)) by reflexivity.
      destruct (collect b gitdir lines) as [es x]. reflexivity.
    + simpl. unfold with_commits. rewrite <- Hd. by destruct w.
Qed.

(** The first call: the global is set, the log of the committer is
    indexed line by line. *)
Lemma get_all_commits_first branch since committer c w :
  MY_COMMITS w = None ->
  committer_email b committer = Some c ->
  let lines := log_lines b gitdir branch since c in
  let d := assign_all ∅ (collect b gitdir lines).1 in
  get_all_commits b gitdir branch since committer w =
  (match (collect b gitdir lines).2 with
   | None => Ret d
   | Some x => Raise x
   end, with_commits d w).
Proof.
  intros Hnone Hc lines d.
  unfold get_all_commits, bind at 1, get. rewrite Hnone.
  unfold bind at 1, put. unfold bind at 1.
  assert (Hcom : (match committer with
                  | None => lift (getkey (get_user_config b !! "email"))
                  | Some c0 => ret c0
                  end) (with_commits ∅ w) = (Ret c, with_commits ∅ w)).
  { destruct committer as [c0|]; simpl in Hc.
    - by injection Hc as ->.
    - unfold lift. by rewrite Hc. }
  unfold with_commits in Hcom at 1. rewrite Hcom. clear Hcom.
  fold (log_lines b gitdir branch since c). fold lines.
  assert (Hloop : for_each (index_line b gitdir) lines (with_commits ∅ w) =
                  (match (collect b gitdir lines).2 with
                   | None => Ret tt
                   | Some x => Raise x
                   end, with_commits d w)).
  { rewrite (index_lines_run lines ∅) by reflexivity. reflexivity. }
  destruct lines as [|l ls] eqn:Hlines.
  - reflexivity.
  - unfold bind. rewrite Hloop.
    destruct (collect b gitdir (l :: ls)).2; reflexivity.
Qed.

Lemma assign_all_app d es1 es2 :
  assign_all d (es1 ++ es2) = assign_all (assign_all d es1) es2.
Proof. apply foldl_app. Qed.

Lemma assign_all_lookup_other d es pid :
  Forall (fun e => e.1 <> pid) es -> assign_all d es !! pid = d !! pid.
Proof.
  revert d. induction es as [|e es IH]; intros d Hall; [done|].
  apply Forall_cons in Hall as [He Hes]. cbn [assign_all foldl].
  fold (assign_all (<[e.1 := e.2]> d) es). rewrite (IH _ Hes).
  by apply lookup_insert_ne.
Qed.

(** The assignment that is not followed by one to the same key stays. *)
Lemma assign_all_lookup_last d es i pid v :
  es !! i = Some (pid, v) ->
  (forall j e, (i < j)%nat -> es !! j = Some e -> e.1 <> pid) ->
  assign_all d es !! pid = Some v.
Proof.
  intros Hi Hlater.
  rewrite <- (take_drop_middle es i (pid, v) Hi).
  rewrite assign_all_app. cbn [assign_all foldl].
  fold (assign_all (<[pid := v]> (assign_all d (take i es))) (drop (S i) es)).
  rewrite assign_all_lookup_other; [apply lookup_insert_eq|].
  apply Forall_lookup. intros k e Hk. rewrite lookup_drop in Hk.
  apply (Hlater (S i + k)%nat e); [lia|done].
Qed.

Lemma collect_all_entries lines :
  (collect b gitdir lines).2 = None ->
  Forall2 (fun line e => patch_entry b gitdir line = Ret e)
    lines (collect b gitdir lines).1.
Proof.
  induction lines as [|line lines IH]; cbn [collect]; [constructor|].
  destruct (patch_entry b gitdir line) as [e|x] eqn:He; [|done].
  destruct (collect b gitdir lines) as [es x]. simpl in *.
  intros ->. constructor; [done|by apply IH].
Qed.

Lemma collect_raises_at lines line e :
  line ∈ lines -> patch_entry b gitdir line = Raise e ->
  exists x, (collect b gitdir lines).2 = Some x.
Proof.
  induction lines as [|l lines IH]; intros Hin He;
    [by apply elem_of_nil in Hin|].
  cbn [collect]. destruct (patch_entry b gitdir l) as [e'|x] eqn:Hl.
  - apply elem_of_cons in Hin as [->|Hin]; [congruence|].
    destruct (IH Hin He) as [x Hx].
    destruct (collect b gitdir lines) as [es x']. simpl in *. eauto.
  - eauto.
Qed.

Lemma collect_raised lines x :
  (collect b gitdir lines).2 = Some x ->
  exists line, line ∈ lines /\ patch_entry b gitdir line = Raise x.
Proof.
  induction lines as [|l lines IH]; cbn [collect]; [done|].
  destruct (patch_entry b gitdir l) as [e'|x'] eqn:Hl.
  - destruct (collect b gitdir lines) as [es x'']. simpl in *.
    intros Hx. destruct (IH Hx) as (line & Hin & Hline).
    exists line. split; [by right|done].
  - simpl. intros [= ->]. exists l. split; [by left|done].
Qed.

End CommitIndex.

Section CommitIndexClaims.

Context (b : b4) (gitdir : option string).

(** C3 (as the code has it). In the index that the first call builds,
    the entry of a patch identity is that of the last line of the log
    with this identity. As [git log] lists the most recent commit first,
    of several commits with one identity the oldest is retained. *)
Theorem get_all_commits_last_listed_wins branch since committer c w idx w'
    i line pid v :
  MY_COMMITS w = None ->
  committer_email b committer = Some c ->
  get_all_commits b gitdir branch since committer w = (Ret idx, w') ->
  log_lines b gitdir branch since c !! i = Some line ->
  patch_entry b gitdir line = Ret (pid, v) ->
  (forall j line' v', (i < j)%nat ->
     log_lines b gitdir branch since c !! j = Some line' ->
     patch_entry b gitdir line' <> Ret (pid, v')) ->
  idx !! pid = Some v.
Proof.
  intros Hnone Hc Hrun Hi Hline Hlater.
  rewrite (get_all_commits_first b gitdir branch since committer c w Hnone Hc)
    in Hrun.
  set (lines := log_lines b gitdir branch since c) in *.
  destruct (collect b gitdir lines).2 as [x|] eqn:Hx; [done|].
  injection Hrun as <- _.
  pose proof (collect_all_entries b gitdir lines Hx) as Hall.
  destruct (Forall2_lookup_l _ _ _ _ _ Hall Hi) as (e & He & Hee).
  rewrite Hline in Hee. injection Hee as <-.
  apply (assign_all_lookup_last _ _ i); [done|].
  intros j [k u] Hj Hje. simpl. intros ->.
  destruct (Forall2_lookup_r _ _ _ _ _ Hall Hje) as (line' & Hl' & Hle').
  by apply (Hlater j line' u Hj Hl').
Qed.

(** C9 (as the code has it). When the patch-id output of a listed
    commit has no word (the commit has no parent, or the diff or the
    patch-id step gave nothing), the first call raises and returns no
    index: [IndexError], unless a line without two fields raised
    [ValueError] before. *)
Theorem get_all_commits_undefined_identity_raises branch since committer c w
    line commit_id subj :
  MY_COMMITS w = None ->
  committer_email b committer = Some c ->
  line ∈ log_lines b gitdir branch since c ->
  split_max1 line = [commit_id; subj] ->
  split (patch_id_output b gitdir commit_id) = [] ->
  exists e w',
    get_all_commits b gitdir branch since committer w = (Raise e, w') /\
    (e = IndexError \/ e = ValueError) /\
    (Forall (fun l => length (split_max1 l) = 2%nat)
       (log_lines b gitdir branch since c) -> e = IndexError).
Proof.
  intros Hnone Hc Hin Hfields Hempty.
  rewrite (get_all_commits_first b gitdir branch since committer c w Hnone Hc).
  set (lines := log_lines b gitdir branch since c) in *.
  assert (Hline : patch_entry b gitdir line = Raise IndexError).
  { rewrite (patch_entry_fields b gitdir line commit_id subj Hfields).
    by rewrite Hempty. }
  destruct (collect_raises_at b gitdir lines line _ Hin Hline) as [x Hx].
  rewrite Hx. eexists x, _. split; [reflexivity|].
  destruct (collect_raised b gitdir lines x Hx) as (l & Hl & Hraise).
  destruct (patch_entry_raises b gitdir l x Hraise) as [->| ->].
  - split; [by right|]. intros Hall.
    apply patch_entry_value_error in Hraise.
    rewrite Forall_forall in Hall. by specialize (Hall l Hl).
  - split; [by left|done].
Qed.

(** C10. Once the first call has returned an index, every later call
    returns this index and changes nothing, whatever backend, directory,
    branch, window and committer it is given. *)
Theorem get_all_commits_memoized branch since committer w idx w1 :
  MY_COMMITS w = None ->
  get_all_commits b gitdir branch since committer w = (Ret idx, w1) ->
  forall (b' : b4) gitdir' branch' since' committer',
    get_all_commits b' gitdir' branch' since' committer' w1 = (Ret idx, w1).
Proof.
  intros Hnone Hrun b' gitdir' branch' since' committer'.
  assert (Hcached : MY_COMMITS w1 = Some idx).
  { destruct (committer_email b committer) as [c|] eqn:Hc.
    - rewrite (get_all_commits_first b gitdir branch since committer c w
                 Hnone Hc) in Hrun.
      destruct (collect b gitdir _).2; [done|].
      by injection Hrun as <- <-.
    - exfalso. destruct committer as [c|]; [done|]. simpl in Hc.
      unfold get_all_commits, bind at 1, get in Hrun. rewrite Hnone in Hrun.
      unfold bind at 1, put in Hrun. unfold bind at 1, lift in Hrun.
      by rewrite Hc in Hrun. }
  unfold get_all_commits, bind, get. by rewrite Hcached.
Qed.

End CommitIndexClaims.

(** Scenario A of the specification. *)
Lemma auto_locate_series_all_or_nothing_witness :
  auto_locate_series Scenarios.no_git None Scenarios.series2 "main" "1.week"
    (Scenarios.with_index Scenarios.index_p1) =
  (Ret None, Scenarios.with_index Scenarios.index_p1).
Proof.
  apply (proj1 (auto_locate_series_all_or_nothing Scenarios.no_git None
                  Scenarios.series2 "main" "1.week"
                  (Scenarios.with_index Scenarios.index_p1)
                  Scenarios.index_p1
                  (Scenarios.with_index Scenarios.index_p1)
                  [("1/2", "p1"); ("2/2", "p2")] eq_refl eq_refl)).
  exists ("2/2", "p2"). split; [|reflexivity].
  vm_compute. repeat constructor.
Defined.

(** Scenario B of the specification. *)
Lemma auto_locate_series_preserves_order_witness :
  exists found,
    auto_locate_series Scenarios.no_git None Scenarios.series2 "main" "1.week"
      (Scenarios.with_index Scenarios.index_p1_p2) =
    (Ret (Some found), Scenarios.with_index Scenarios.index_p1_p2) /\
    Forall2 (fun patch c => Scenarios.index_p1_p2 !! patch.2 = Some c)
      [("1/2", "p1"); ("2/2", "p2")] found.
Proof.
  apply (auto_locate_series_preserves_order Scenarios.no_git None
           Scenarios.series2 "main" "1.week"
           (Scenarios.with_index Scenarios.index_p1_p2)
           Scenarios.index_p1_p2
           (Scenarios.with_index Scenarios.index_p1_p2)
           [("1/2", "p1"); ("2/2", "p2")] eq_refl eq_refl).
  intros patch Hin.
  apply elem_of_cons in Hin as [->|Hin]; [by eexists|].
  apply elem_of_cons in Hin as [->|Hin]; [by eexists|].
  by apply elem_of_nil in Hin.
Defined.

Example scenario_B_order :
  auto_locate_series Scenarios.no_git None Scenarios.series2 "main" "1.week"
    (Scenarios.with_index Scenarios.index_p1_p2) =
  (Ret (Some [("c1", "subj1"); ("c2", "subj2")]),
   Scenarios.with_index Scenarios.index_p1_p2).
Proof. reflexivity. Qed.

(** C3, as stated, fails: of two commits with the patch-id [p1p1] the
    more recent one is [c2c2], and the index keeps [c1c1]. *)
Lemma get_all_commits_keeps_oldest :
  let b := Scenarios.same_patch_twice in
  let lines := log_lines b None "main" "1.week" "bob@example.com" in
  most_recent_with b None "p1p1" lines = Some ("c2c2", "fix typo again") /\
  exists idx w',
    get_all_commits b None "main" "1.week" None (Scenarios.fresh [] None) =
    (Ret idx, w') /\
    idx !! "p1p1" = Some ("c1c1", "fix typo") /\
    idx !! "p1p1" <> most_recent_with b None "p1p1" lines.
Proof.
  split; [reflexivity|].
  eexists _, _. split; [eval_lhs; reflexivity|]. split; [reflexivity|].
  vm_compute. congruence.
Qed.

Lemma get_all_commits_last_listed_wins_witness :
  exists idx w',
    get_all_commits Scenarios.same_patch_twice None "main" "1.week" None
      (Scenarios.fresh [] None) = (Ret idx, w') /\
    idx !! "p1p1" = Some ("c1c1", "fix typo").
Proof.
  eexists _, _. split; [eval_lhs; reflexivity|].
  apply (get_all_commits_last_listed_wins Scenarios.same_patch_twice None
           "main" "1.week" None "bob@example.com" (Scenarios.fresh [] None)
           _ _ 1%nat "c1c1 fix typo" "p1p1" ("c1c1", "fix typo")
           eq_refl eq_refl eq_refl eq_refl eq_refl).
  intros j line' v' Hj Hl. destruct j as [|[|j]]; [lia|lia|].
  vm_compute in Hl. discriminate.
Defined.

(** C9, as stated, fails: the root commit has no patch identity, and
    building the index raises [IndexError]. *)
Lemma get_all_commits_root_commit_raises :
  let b := Scenarios.root_commit_only in
  split_max1 "r0r0 initial import" = ["r0r0"; "initial import"] /\
  git_get_rev_diff b None "r0r0" = (128, "") /\
  exists w',
    get_all_commits b None "main" "1.week" None (Scenarios.fresh [] None) =
    (Raise IndexError, w').
Proof.
  split; [reflexivity|]. split; [reflexivity|].
  eexists. eval_lhs. reflexivity.
Qed.

Lemma get_all_commits_undefined_identity_raises_witness :
  exists e w',
    get_all_commits Scenarios.root_commit_only None "main" "1.week" None
      (Scenarios.fresh [] None) = (Raise e, w') /\
    (e = IndexError \/ e = ValueError).
Proof.
  destruct (get_all_commits_undefined_identity_raises
              Scenarios.root_commit_only None "main" "1.week" None
              "bob@example.com" (Scenarios.fresh [] None)
              "r0r0 initial import" "r0r0" "initial import"
              eq_refl eq_refl ltac:(vm_compute; constructor) eq_refl eq_refl)
    as (e & w' & Hrun & He & _).
  by exists e, w'.
Defined.

Lemma get_all_commits_memoized_witness :
  exists idx w1,
    get_all_commits Scenarios.same_patch_twice None "main" "1.week" None
      (Scenarios.fresh [] None) = (Ret idx, w1) /\
    get_all_commits Scenarios.root_commit_only (Some "/other/.git") "next"
      "2.months" (Some "carol@example.com") w1 = (Ret idx, w1).
Proof.
  eexists _, _. split; [eval_lhs; reflexivity|].
  apply (get_all_commits_memoized Scenarios.same_patch_twice None "main"
           "1.week" None (Scenarios.fresh [] None) _ _ eq_refl eq_refl).
Defined.

(** ** File names *)

Section FileNames.

Lemma append_nil_l c : "" +:+ c = c.
Proof. reflexivity. Qed.

Lemma append_cons x a c : String x a +:+ c = String x (a +:+ c).
Proof. reflexivity. Qed.

Lemma length_append a c :
  String.length (a +:+ c) = (String.length a + String.length c)%nat.
Proof.
  induction a as [|x a IH]; [done|].
  rewrite append_cons. simpl. by rewrite IH.
Qed.

Lemma rfind_dot_append a c pos :
  rfind_dot (a +:+ c) pos =
  match rfind_dot c (pos + String.length a)%nat with
  | Some i => Some i
  | None => rfind_dot a pos
  end.
Proof.
  revert pos. induction a as [|x a IH]; intros pos.
  - rewrite append_nil_l. simpl. rewrite Nat.add_0_r.
    by destruct (rfind_dot c pos).
  - rewrite append_cons. simpl. rewrite IH.
    replace (S pos + String.length a)%nat
      with (pos + S (String.length a))%nat by lia.
    by destruct (rfind_dot c _).
Qed.

Lemma substring_skip a c n :
  substring (String.length a) n (a +:+ c) = substring 0 n c.
Proof.
  induction a as [|x a IH]; [done|]. rewrite append_cons. by simpl.
Qed.

Lemma append_cancel_r a c t : a +:+ t = c +:+ t -> a = c.
Proof.
  revert c. induction a as [|x a IH]; intros [|y c] H.
  - done.
  - apply (f_equal String.length) in H.
    rewrite append_nil_l, append_cons in H. simpl in H.
    rewrite length_append in H. lia.
  - apply (f_equal String.length) in H.
    rewrite append_nil_l, append_cons in H. simpl in H.
    rewrite length_append in H. lia.
  - rewrite !append_cons in H. injection H as -> H. f_equal. by apply IH.
Qed.

Lemma suffix_marker n m : n <> "" -> suffix (n +:+ marker_suffix m) = marker_suffix m.
Proof.
  intros Hn. unfold suffix. rewrite rfind_dot_append, length_append.
  assert (0 < String.length n)%nat as Hlen
    by (destruct n; [done|simpl; lia]).
  destruct m; cbn [marker_suffix]; cbn -[Nat.ltb Nat.sub substring].
  - replace (0 <? String.length n)%nat with true
      by (symmetry; apply Nat.ltb_lt; lia).
    replace (String.length n <? String.length n + 5 - 1)%nat with true
      by (symmetry; apply Nat.ltb_lt; lia).
    replace (String.length n + 5 - String.length n)%nat with 5%nat by lia.
    cbn [andb]. by rewrite substring_skip.
  - replace (0 <? String.length n)%nat with true
      by (symmetry; apply Nat.ltb_lt; lia).
    replace (String.length n <? String.length n + 10 - 1)%nat with true
      by (symmetry; apply Nat.ltb_lt; lia).
    replace (String.length n + 10 - String.length n)%nat with 10%nat by lia.
    cbn [andb]. by rewrite substring_skip.
Qed.

Lemma tracked_name_nonempty n : is_tracked_name n -> n <> "".
Proof. intros [H|H] ->; discriminate H. Qed.

(** A name with a terminal marker is not read by [list_tracked]. *)
Lemma terminal_name_not_tracked n m :
  is_tracked_name n -> ~ is_tracked_name (n +:+ marker_suffix m).
Proof.
  intros Hn. unfold is_tracked_name.
  rewrite (suffix_marker n m (tracked_name_nonempty n Hn)).
  destruct m; intros [H|H]; discriminate H.
Qed.

Lemma terminal_name_inj n n' m m' :
  is_tracked_name n -> is_tracked_name n' ->
  n +:+ marker_suffix m = n' +:+ marker_suffix m' -> n = n' /\ m = m'.
Proof.
  intros Hn Hn' Heq.
  pose proof (f_equal suffix Heq) as Hs.
  rewrite !suffix_marker in Hs by by apply tracked_name_nonempty.
  assert (m = m') as <- by (destruct m, m'; done).
  split; [|done]. by apply append_cancel_r in Heq.
Qed.

End FileNames.

(** ** Renaming in the data directory *)

Section Rename.

Context (src dst : string) (Hne : src <> dst).

Local Abbreviation renamed l :=
  (rename_file src dst <$>
     filter (fun f => f_name f <> dst \/ f_name f = src) l).

Lemma rename_file_ino f : f_ino (rename_file src dst f) = f_ino f.
Proof. unfold rename_file. by destruct (decide _). Qed.

Lemma rename_file_name f :
  f_name (rename_file src dst f) =
  if decide (f_name f = src) then dst else f_name f.
Proof. unfold rename_file. by destruct (decide _). Qed.

Lemma elem_of_renamed (l : list file) g :
  g ∈ renamed l <->
  exists f, f ∈ l /\ (f_name f <> dst \/ f_name f = src) /\
            g = rename_file src dst f.
Proof.
  rewrite list_elem_of_fmap. split.
  - intros (f & -> & Hf). apply list_elem_of_filter in Hf as [HP Hf]. eauto.
  - intros (f & Hf & HP & ->). exists f. split; [done|].
    by apply list_elem_of_filter.
Qed.

(** A file of the directory after the rename is the renamed record, or
    a file that was there under another name than [src] and [dst]. *)
Lemma renamed_cases (l : list file) g :
  g ∈ renamed l ->
  (f_name g = dst /\
   exists f, f ∈ l /\ f_name f = src /\ g = rename_file src dst f) \/
  (g ∈ l /\ f_name g <> src /\ f_name g <> dst).
Proof.
  intros (f & Hf & HP & ->)%elem_of_renamed.
  rewrite rename_file_name. unfold rename_file.
  destruct (decide (f_name f = src)) as [Hs|Hs].
  - left. split; [done|]. exists f. unfold rename_file.
    by destruct (decide _).
  - right. by destruct HP.
Qed.

Lemma renamed_keeps (l : list file) f :
  f ∈ l -> f_name f <> src -> f_name f <> dst -> f ∈ renamed l.
Proof.
  intros Hf Hs Hd. apply elem_of_renamed. exists f.
  split; [done|]. split; [by left|].
  unfold rename_file. by destruct (decide _).
Qed.

Lemma renamed_moves (l : list file) f :
  f ∈ l -> f_name f = src -> rename_file src dst f ∈ renamed l.
Proof.
  intros Hf Hs. apply elem_of_renamed. exists f.
  split; [done|]. split; [by right|done].
Qed.

Lemma renamed_NoDup_names (l : list file) :
  NoDup (f_name <$> l) -> NoDup (f_name <$> renamed l).
Proof.
  induction l as [|f l IH]; [done|].
  rewrite fmap_cons. intros [Hf Hl]%NoDup_cons.
  rewrite filter_cons. destruct (decide _) as [HP|HP]; [|by apply IH].
  rewrite !fmap_cons. apply NoDup_cons. split; [|by apply IH].
  intros (g & Hg & Hin)%list_elem_of_fmap.
  rewrite rename_file_name in Hg.
  apply renamed_cases in Hin as [(Hd & f' & Hf' & Hs' & _)|(Hgl & Hs & Hd)].
  - destruct (decide (f_name f = src)) as [Hs|Hs].
    + apply Hf. rewrite Hs, <- Hs'. by apply list_elem_of_fmap_2.
    + destruct HP as [HP|HP]; congruence.
  - destruct (decide (f_name f = src)) as [Hs'|Hs']; [congruence|].
    apply Hf. rewrite Hg. by apply list_elem_of_fmap_2.
Qed.

Lemma renamed_NoDup_inos (l : list file) :
  NoDup (f_ino <$> l) -> NoDup (f_ino <$> renamed l).
Proof.
  induction l as [|f l IH]; [done|].
  rewrite fmap_cons. intros [Hf Hl]%NoDup_cons.
  rewrite filter_cons. destruct (decide _) as [HP|HP]; [|by apply IH].
  rewrite !fmap_cons. apply NoDup_cons. split; [|by apply IH].
  intros (g & Hg & Hin)%list_elem_of_fmap.
  apply elem_of_renamed in Hin as (f' & Hf' & _ & ->).
  rewrite !rename_file_ino in Hg. apply Hf. rewrite Hg.
  by apply list_elem_of_fmap_2.
Qed.

Lemma os_rename_inv w w1 :
  os_rename src dst w = (Ret tt, w1) ->
  (src ∈ f_name <$> data_dir w) /\
  data_dir w1 = renamed (data_dir w).
Proof.
  unfold os_rename. destruct (decide _) as [Hin|]; [|done].
  by intros [= <-].
Qed.

End Rename.

Section Transitions.

Lemma transitions_cons t ts w w' :
  transitions (t :: ts) w = (Ret tt, w') ->
  exists w1, transition t.1 t.2 w = (Ret tt, w1) /\
             transitions ts w1 = (Ret tt, w').
Proof.
  unfold transitions. cbn [for_each]. unfold bind at 1.
  destruct (transition t.1 t.2 w) as [[[]|e] w1]; [|done].
  intros H. by exists w1.
Qed.

Lemma transition_src_dst m n :
  is_tracked_name n -> n <> n +:+ marker_suffix m.
Proof.
  intros Hn Heq. apply (terminal_name_not_tracked n m Hn). by rewrite <- Heq.
Qed.

(** A file under a terminal name, whose tracked name is free, stays
    where it is through every sequence of transitions. *)
Lemma transitions_keep_terminal ts w w' f n m :
  Forall (fun t => is_tracked_name t.2) ts ->
  transitions ts w = (Ret tt, w') ->
  f ∈ data_dir w -> f_name f = n +:+ marker_suffix m ->
  is_tracked_name n -> n ∉ f_name <$> data_dir w ->
  f ∈ data_dir w' /\ (n ∉ f_name <$> data_dir w').
Proof.
  revert w. induction ts as [|[m' n'] ts IH]; intros w Hall Hrun Hf Hname Hn Hfree.
  - by injection Hrun as <-.
  - apply Forall_cons in Hall as [Hn' Hall]. simpl in Hn'.
    apply transitions_cons in Hrun as (w1 & Hstep & Hrun). simpl in Hstep.
    apply os_rename_inv in Hstep as [Hsrc Hdir].
    assert (n' <> n) as Hnn by (intros ->; done).
    apply (IH w1 Hall Hrun).
    + rewrite Hdir. apply renamed_keeps; [done| |].
      * rewrite Hname. intros Heq.
        apply (terminal_name_not_tracked n m Hn). by rewrite Heq.
      * rewrite Hname. intros Heq.
        by apply terminal_name_inj in Heq as [-> _].
    + done.
    + done.
    + rewrite Hdir. intros (g & Hg & Hin)%list_elem_of_fmap.
      apply renamed_cases in Hin as [(Hd & _)|(Hgl & _ & _)].
      * apply (terminal_name_not_tracked n' m' Hn'). by rewrite <- Hd, <- Hg.
      * apply Hfree. rewrite Hg. by apply list_elem_of_fmap_2.
Qed.

(** What a sequence of transitions leaves of each transitioned item:
    its tracked name is gone, and its record is in the directory under
    the terminal name. *)
Lemma transitions_outcome ts w w' :
  NoDup (f_name <$> data_dir w) -> NoDup (f_ino <$> data_dir w) ->
  Forall (fun t => is_tracked_name t.2) ts ->
  transitions ts w = (Ret tt, w') ->
  NoDup (f_ino <$> data_dir w') /\
  forall m n, (m, n) ∈ ts ->
    (n ∉ f_name <$> data_dir w') /\
    exists r, r ∈ data_dir w /\ f_name r = n /\
      rename_file n (n +:+ marker_suffix m) r ∈ data_dir w'.
Proof.
  revert w. induction ts as [|[m1 n1] ts IH]; intros w Hnames Hinos Hall Hrun.
  - injection Hrun as <-. split; [done|]. intros m n Hin.
    by apply elem_of_nil in Hin.
  - apply Forall_cons in Hall as [Hn1 Hall]. simpl in Hn1.
    apply transitions_cons in Hrun as (w1 & Hstep & Hrun). simpl in Hstep.
    pose proof (transition_src_dst m1 n1 Hn1) as Hne.
    apply os_rename_inv in Hstep as [Hsrc Hdir].
    assert (NoDup (f_name <$> data_dir w1)) as Hnames1
      by (rewrite Hdir; by apply renamed_NoDup_names).
    assert (NoDup (f_ino <$> data_dir w1)) as Hinos1
      by (rewrite Hdir; by apply renamed_NoDup_inos).
    destruct (IH w1 Hnames1 Hinos1 Hall Hrun) as [Hinos' Hrest].
    split; [done|]. intros m n [Heq|Hin]%elem_of_cons.
    + injection Heq as -> ->.
      apply list_elem_of_fmap in Hsrc as (r & Hr & Hrin).
      assert (rename_file n1 (n1 +:+ marker_suffix m1) r ∈ data_dir w1)
        as Hmoved by (rewrite Hdir; by apply renamed_moves).
      assert (n1 ∉ f_name <$> data_dir w1) as Hfree.
      { rewrite Hdir. intros (g & Hg & Hin)%list_elem_of_fmap.
        apply renamed_cases in Hin as [(Hd & _)|(_ & Hs & _)]; congruence. }
      destruct (transitions_keep_terminal ts w1 w' _ n1 m1 Hall Hrun Hmoved)
        as [Hkept Hgone]; [|done|done|].
      { rewrite rename_file_name. by destruct (decide _). }
      split; [done|]. by exists r.
    + destruct (Hrest m n Hin) as (Hgone & r & Hr & Hrn & Hmoved).
      split; [done|]. exists r. split; [|done].
      rewrite Hdir in Hr.
      apply renamed_cases in Hr as [(Hd & _)|(Hrl & _ & _)]; [|done].
      exfalso. rewrite Forall_forall in Hall.
      apply (terminal_name_not_tracked n1 m1 Hn1).
      rewrite <- Hd, Hrn. by apply (Hall (m, n)).
Qed.

End Transitions.

(** ** Listing the tracked items *)

Section Listing.

Context (b : b4).

Lemma insert_by_mtime_perm f l : insert_by_mtime f l ≡ₚ f :: l.
Proof.
  induction l as [|g l IH]; [done|]. simpl.
  destruct (f_mtime g <? f_mtime f); [|done].
  rewrite IH. apply Permutation_swap.
Qed.

Lemma sorted_by_mtime_perm l : sorted_by_mtime l ≡ₚ l.
Proof.
  induction l as [|f l IH]; [done|].
  unfold sorted_by_mtime. cbn [foldr]. fold (sorted_by_mtime l).
  rewrite insert_by_mtime_perm. by rewrite IH.
Qed.

(** [list_tracked] reads the directory and leaves the world as it is. *)
Lemma list_tracked_run w :
  list_tracked b w = (load_all b (sorted_by_mtime (data_dir w)), w).
Proof. reflexivity. Qed.

(** With [user.name] and [user.email] configured, the listing is made
    of the files with a tracked name, each under its own file name. *)
Lemma load_all_tracked name email (paths : list file) :
  get_user_config b !! "name" = Some name ->
  get_user_config b !! "email" = Some email ->
  exists tracked, load_all b paths = Ret tracked /\
    forall j, j ∈ tracked ->
      exists f, f ∈ paths /\ is_tracked_name (f_name f) /\
                trackfile j = Some (f_name f).
Proof.
  intros Hname Hemail. induction paths as [|f paths (tracked & Hload & Hall)].
  - exists []. split; [done|]. intros j Hj. by apply elem_of_nil in Hj.
  - cbn [load_all]. destruct (decide _) as [Hf|Hf].
    + unfold load_tracked. rewrite Hname, Hemail, Hload. simpl.
      destruct (decide (suffix (f_name f) = ".pr")); simpl;
        (eexists; split; [reflexivity|]);
        (intros j [->|Hj]%elem_of_cons;
         [exists f; split; [by left|]; by split
         |destruct (Hall j Hj) as (g & Hg & Hgn & Hgt);
          exists g; split; [by right|done]]).
    + exists tracked. split; [done|]. intros j Hj.
      destruct (Hall j Hj) as (g & Hg & Hgn & Hgt).
      exists g. split; [by right|done].
Qed.

Lemma NoDup_fmap_eq {A B} (h : A -> B) (l : list A) x y :
  NoDup (h <$> l) -> x ∈ l -> y ∈ l -> h x = h y -> x = y.
Proof.
  induction l as [|z l IH]; intros Hnd Hx Hy Hxy;
    [by apply elem_of_nil in Hx|].
  rewrite fmap_cons in Hnd. apply NoDup_cons in Hnd as [Hz Hnd].
  apply elem_of_cons in Hx as [->|Hx]; apply elem_of_cons in Hy as [->|Hy].
  - done.
  - exfalso. apply Hz. rewrite Hxy. by apply list_elem_of_fmap_2.
  - exfalso. apply Hz. rewrite <- Hxy. by apply list_elem_of_fmap_2.
  - by apply IH.
Qed.

(** The rename of [discard_selected] is the transition to Discarded. *)
Lemma discard_one_transition j n w :
  trackfile j = Some n -> discard_one j w = transition Discarded n w.
Proof. intros Hn. unfold discard_one, bind, lift. by rewrite Hn. Qed.

(** [send_messages] writes the message of an item, then makes the
    transition to Sent. *)
Lemma send_one_transition j n msg d w :
  trackfile j = Some n ->
  match pr_commit_id j with
  | Some _ => generate_pr_thanks b j
  | None => generate_am_thanks b j
  end = Ret msg ->
  out_dir w = Some d ->
  exists outfile,
    send_one b j w =
    transition Sent n (set_out_dir (Some (write_file outfile msg d)) w).
Proof.
  intros Hn Hmsg Hout. eexists. unfold send_one, bind, lift, write_out.
  rewrite Hmsg, Hout. simpl. by rewrite Hn.
Qed.

(** C8. After a sequence of transitions of tracked items, each one a
    rename that appends the [.sent] or [.discarded] marker, the listing
    holds none of the transitioned items, and the record of each of them
    is in the data directory under one name only: its tracked name
    followed by the marker of its transition. *)
Theorem list_tracked_excludes_transitioned ts w w' name email :
  NoDup (f_name <$> data_dir w) -> NoDup (f_ino <$> data_dir w) ->
  Forall (fun t => is_tracked_name t.2) ts ->
  transitions ts w = (Ret tt, w') ->
  get_user_config b !! "name" = Some name ->
  get_user_config b !! "email" = Some email ->
  exists tracked,
    list_tracked b w' = (Ret tracked, w') /\
    forall m n, (m, n) ∈ ts ->
      (forall j, j ∈ tracked -> trackfile j <> Some n) /\
      exists r, r ∈ data_dir w /\ f_name r = n /\
        (exists f, f ∈ data_dir w' /\ f_ino f = f_ino r /\
                   f_body f = f_body r /\
                   f_name f = n +:+ marker_suffix m) /\
        (forall g, g ∈ data_dir w' -> f_ino g = f_ino r ->
                   f_name g = n +:+ marker_suffix m).
Proof.
  intros Hnames Hinos Hall Hrun Hname Hemail.
  destruct (transitions_outcome ts w w' Hnames Hinos Hall Hrun)
    as [Hinos' Hout].
  destruct (load_all_tracked name email (sorted_by_mtime (data_dir w'))
              Hname Hemail) as (tracked & Hload & Htracked).
  exists tracked. rewrite list_tracked_run, Hload. split; [done|].
  intros m n Hin. destruct (Hout m n Hin) as (Hgone & r & Hr & Hrn & Hmoved).
  split.
  - intros j Hj Hjn. destruct (Htracked j Hj) as (f & Hf & _ & Hft).
    apply Hgone. rewrite sorted_by_mtime_perm in Hf.
    assert (f_name f = n) as <- by congruence.
    by apply list_elem_of_fmap_2.
  - exists r. split; [done|]. split; [done|].
    assert (f_name (rename_file n (n +:+ marker_suffix m) r) =
            n +:+ marker_suffix m) as Hnew.
    { rewrite rename_file_name. by destruct (decide _). }
    split.
    + exists (rename_file n (n +:+ marker_suffix m) r).
      split; [done|]. split; [apply rename_file_ino|]. split; [|done].
      unfold rename_file. by destruct (decide _).
    + intros g Hg Hino. rewrite <- Hnew. f_equal.
      apply (NoDup_fmap_eq f_ino (data_dir w')); [done..|].
      by rewrite rename_file_ino.
Qed.

End Listing.

Lemma list_tracked_excludes_transitioned_witness :
  exists w' tracked,
    transitions [(Sent, "X.pr"); (Discarded, "m2.am")]
      (Scenarios.fresh Scenarios.store2 None) = (Ret tt, w') /\
    list_tracked Scenarios.no_git w' = (Ret tracked, w') /\
    (forall j, j ∈ tracked -> trackfile j <> Some "X.pr") /\
    (forall g, g ∈ data_dir w' -> f_ino g = 11%nat ->
               f_name g = "X.pr.sent").
Proof.
  set (ts := [(Sent, "X.pr"); (Discarded, "m2.am")]).
  set (w := Scenarios.fresh Scenarios.store2 None).
  exists (transitions ts w).2.
  destruct (list_tracked_excludes_transitioned Scenarios.no_git ts w
              (transitions ts w).2 "Bob" "bob@example.com")
    as (tracked & Hlist & Hall).
  - compute_done.
  - compute_done.
  - repeat constructor; compute_done.
  - vm_compute. reflexivity.
  - reflexivity.
  - reflexivity.
  - exists tracked. split; [vm_compute; reflexivity|]. split; [done|].
    destruct (Hall Sent "X.pr") as (Hex & r & Hr & Hrn & _ & Huniq);
      [by left|].
    split; [done|]. intros g Hg Hino. apply Huniq; [done|].
    rewrite Hino. clear -Hr Hrn.
    apply elem_of_cons in Hr as [->|Hr]; [discriminate Hrn|].
    apply elem_of_cons in Hr as [->|Hr]; [done|].
    by apply elem_of_nil in Hr.
Defined.

(** ** Selecting items to send or discard *)

Section Selection.

Context (b : b4).

Lemma int_raises s e : int s = Raise e -> e = ValueError.
Proof.
  unfold int. destruct (strip_int s) as [|c d]; [by intros [= <-]|].
  destruct (decide (c = "-"%char)) as [->|Hm].
  { destruct (digits_go d 0 false); [done|by intros [= <-]]. }
  destruct (decide (c = "+"%char)) as [->|Hp].
  { destruct (digits_go d 0 false); [done|by intros [= <-]]. }
  assert (forall r : res Z,
            (match digits_go (String c d) 0 false with
             | Some n => Ret (1 * n)
             | None => Raise ValueError
             end = r) -> r = Raise e -> e = ValueError) as Hbody.
  { intros r <-. destruct (digits_go _ 0 false); [done|by intros [= <-]]. }
  intros H. eapply Hbody; [|exact H].
  destruct c as [[] [] [] [] [] [] [] []]; try reflexivity; congruence.
Qed.

Lemma getitem_raises {A} (l : list A) i e :
  getitem l i = Raise e -> e = IndexError.
Proof.
  unfold getitem. destruct (_ || _); [by intros [= <-]|].
  destruct (l !! _); [done|by intros [= <-]].
Qed.

Lemma getitem_above {A} (l : list A) n :
  Z.of_nat (length l) < n -> getitem l (n - 1) = Raise IndexError.
Proof.
  intros Hn. unfold getitem.
  destruct (Z.ltb_spec (n - 1) 0); [lia|].
  destruct (Z.ltb_spec (n - 1) 0); [lia|].
  destruct (Z.leb_spec (Z.of_nat (length l)) (n - 1)); [done|lia].
Qed.

(** What the two [except] branches catch. *)
Lemma lookup_entry_raises (tracked : list jsondata) num e :
  res_bind (int num) (fun n => getitem tracked (n - 1)) = Raise e ->
  e = ValueError \/ e = IndexError.
Proof.
  destruct (int num) as [n|e'] eqn:Hint; simpl.
  - intros ->%getitem_raises. by right.
  - intros [= <-]. left. by eapply int_raises.
Qed.

Lemma invalid_entry_raises tracked num :
  invalid_entry tracked num ->
  exists e, res_bind (int num) (fun n => getitem tracked (n - 1)) = Raise e.
Proof.
  intros [Hv|(n & Hn & Habove)].
  - rewrite Hv. by eexists.
  - rewrite Hn. simpl. rewrite getitem_above by done. by eexists.
Qed.

(** With an invalid entry in the selection, the loop leaves with status
    1, and the world is as it was. *)
Lemma select_invalid tracked nums listing w :
  (exists num, num ∈ nums /\ invalid_entry tracked num) ->
  select tracked nums listing w = (Raise (SystemExit 1), w).
Proof.
  revert listing. induction nums as [|num nums IH]; intros listing.
  - intros (num & Hin & _). by apply elem_of_nil in Hin.
  - intros (bad & Hin & Hbad). cbn [select].
    destruct (res_bind (int num) (fun n => getitem tracked (n - 1)))
      as [j|e] eqn:Hnum.
    + apply IH. exists bad. split; [|done].
      apply elem_of_cons in Hin as [->|Hin]; [|done].
      apply invalid_entry_raises in Hbad as [e He]. congruence.
    + by destruct (lookup_entry_raises tracked num e Hnum) as [-> | ->].
Qed.

(** C7 (as the code has it). When an entry of the selection is not a
    number, or is a number above the count of tracked items, sending,
    and discarding without [_all], stop before any rename or write: the
    world is unchanged. The exit status is 1, and 0 when nothing is
    tracked. *)
Theorem selection_invalid_aborts c w tracked :
  list_tracked b w = (Ret tracked, w) ->
  let status := match tracked with [] => 0 | _ => 1 end in
  ((exists num, num ∈ cmd_send c /\ invalid_entry tracked num) ->
   send_selected b c w = (Raise (SystemExit status), w)) /\
  ((exists num, num ∈ cmd_discard c /\ invalid_entry tracked num) ->
   "_all" ∉ cmd_discard c ->
   discard_selected b c w = (Raise (SystemExit status), w)).
Proof.
  intros Hlist status. split.
  - intros Hbad. unfold send_selected, bind. rewrite Hlist.
    destruct tracked as [|j tracked]; [done|].
    by rewrite (select_invalid _ _ _ _ Hbad).
  - intros Hbad Hall. unfold discard_selected, bind. rewrite Hlist.
    destruct tracked as [|j tracked]; [done|].
    destruct (decide _); [done|].
    by rewrite (select_invalid _ _ _ _ Hbad).
Qed.

End Selection.

Lemma selection_invalid_aborts_witness :
  let w := Scenarios.fresh Scenarios.store2 None in
  send_selected Scenarios.no_git (Scenarios.cmd false ["1"; "3"] []) w =
    (Raise (SystemExit 1), w) /\
  discard_selected Scenarios.no_git (Scenarios.cmd false [] ["2"; "x"]) w =
    (Raise (SystemExit 1), w).
Proof.
  intros w.
  destruct (selection_invalid_aborts Scenarios.no_git
              (Scenarios.cmd false ["1"; "3"] []) w
              (load_all_value Scenarios.no_git w) eq_refl) as [Hsend _].
  destruct (selection_invalid_aborts Scenarios.no_git
              (Scenarios.cmd false [] ["2"; "x"]) w
              (load_all_value Scenarios.no_git w) eq_refl) as [_ Hdiscard].
  split.
  - apply Hsend. exists "3". split; [compute_done|].
    right. exists 3. split; [reflexivity|]. vm_compute. reflexivity.
  - apply Hdiscard; [|compute_done].
    exists "x". split; [compute_done|]. by left.
Defined.

(** C7, as stated, fails: with [_all] in the selection the entries are
    not validated, and every tracked item is discarded although ["x"] is
    not a number; and with nothing tracked, an invalid selection ends
    with status 0. *)
Lemma discard_all_skips_validation :
  int "x" = Raise ValueError /\
  (exists w',
     discard_selected Scenarios.no_git (Scenarios.cmd false [] ["_all"; "x"])
       (Scenarios.fresh Scenarios.store2 None) = (Raise (SystemExit 0), w') /\
     f_name <$> data_dir w' = ["m2.am.discarded"; "X.pr.discarded"]) /\
  send_selected Scenarios.no_git (Scenarios.cmd false ["x"] [])
    (Scenarios.fresh [] None) = (Raise (SystemExit 0), Scenarios.fresh [] None).
Proof.
  split; [reflexivity|]. split; [|reflexivity].
  eexists. split; [eval_lhs; reflexivity|reflexivity].
Qed.

(** The number 0 is taken as index -1 and selects the last item of the
    listing. *)
Example send_selected_zero :
  exists w',
    send_selected Scenarios.no_git (Scenarios.cmd false ["0"] [])
      (Scenarios.fresh Scenarios.store2 None) = (Ret tt, w') /\
    f_name <$> data_dir w' = ["m2.am.sent"; "X.pr"].
Proof. eexists. split; [eval_lhs; reflexivity|reflexivity]. Qed.

(** ** The stale-artifact check *)

Section StaleCheck.

Context (b : b4).

Lemma bind_never {A B} (m : M A) (k : A -> M B) :
  (forall a, never_returns (k a)) -> never_returns (bind m k).
Proof.
  intros Hk w. unfold bind. destruct (m w) as [[a|e] w1]; [apply Hk|eauto].
Qed.

Lemma sys_exit_never {A} code : never_returns (@sys_exit A code).
Proof. intros w. by eexists _, _. Qed.

(** Every path through [auto_thankanator] ends in [sys.exit] or in
    another exception. *)
Lemma auto_thankanator_never_returns c : never_returns (auto_thankanator b c).
Proof.
  unfold auto_thankanator. apply bind_never. intros wantbranch.
  apply bind_never. intros [|j tracked]; [apply sys_exit_never|].
  apply bind_never. intros [|a applied]; [apply sys_exit_never|].
  apply bind_never. intros _. apply sys_exit_never.
Qed.

(** In automatic mode [check_stale_thanks] is never reached: [main]
    behaves as [auto_thankanator]. *)
Lemma main_auto_skips_check c email w :
  get_user_config b !! "email" = Some email ->
  cmd_auto c = true ->
  main b c w = auto_thankanator b c w.
Proof.
  intros Hemail Hauto. unfold main. rewrite Hemail, Hauto. unfold bind.
  by destruct (auto_thankanator_never_returns c w) as (e & w' & ->).
Qed.

End StaleCheck.

(** C6. Scenario D: the output directory holds a message of an earlier
    run. In automatic mode [main] writes the message of the located
    series next to it, renames the tracked file to [.sent] and leaves
    with status 0; with [--send 1] it does the same and only then
    refuses, with status 1. *)
Theorem main_checks_stale_thanks_too_late :
  let w := Scenarios.fresh Scenarios.store1 Scenarios.stale_out in
  check_stale_thanks "." w = (Raise (SystemExit 1), w) /\
  (exists w',
     main Scenarios.series_applied (Scenarios.cmd true [] []) w =
       (Raise (SystemExit 0), w') /\
     f_name <$> data_dir w' = ["m2.am.sent"] /\
     fst <$> default [] (out_dir w') =
       ["alice_example_com_old.thanks";
        "alice_example_com_patch_0_2_tidy.thanks"]) /\
  (exists w',
     main Scenarios.no_git (Scenarios.cmd false ["1"] []) w =
       (Raise (SystemExit 1), w') /\
     f_name <$> data_dir w' = ["m2.am.sent"] /\
     fst <$> default [] (out_dir w') =
       ["alice_example_com_old.thanks";
        "alice_example_com_patch_0_2_tidy.thanks"]).
Proof.
  split; [reflexivity|]. split.
  - eexists. split; [eval_lhs; reflexivity|]. split; reflexivity.
  - eexists. split; [eval_lhs; reflexivity|]. split; reflexivity.
Qed.

(** ** The Python primitives on examples *)

Example split_max1_ex :
  Py.split_max1 "0a1b  fix the  thing " = ["0a1b"; "fix the  thing "].
Proof. reflexivity. Qed.

Example split_max1_short : Py.split_max1 "0a1b  " = ["0a1b"].
Proof. reflexivity. Qed.

Example split_ex : Py.split "  abc  0000 " = ["abc"; "0000"].
Proof. reflexivity. Qed.

Example int_ex :
  Py.int " 12 " = Py.Ret 12 /\ Py.int "-3" = Py.Ret (-3) /\
  Py.int "1_0" = Py.Ret 10 /\ Py.int "x" = Py.Raise Py.ValueError /\
  Py.int "" = Py.Raise Py.ValueError /\ Py.int "1__0" = Py.Raise Py.ValueError.
Proof. repeat split; reflexivity. Qed.

Example getitem_ex :
  Py.getitem [1; 2; 3] (-1) = Py.Ret 3 /\
  Py.getitem [1; 2; 3] 3 = Py.Raise Py.IndexError /\
  Py.getitem [1; 2; 3] (-4) = Py.Raise Py.IndexError.
Proof. repeat split; reflexivity. Qed.

Example suffix_ex :
  Py.suffix "abc.am" = ".am" /\ Py.suffix "abc.am.sent" = ".sent" /\
  Py.suffix ".pr" = "" /\ Py.suffix "abc." = "" /\ Py.stem "abc.pr" = "abc".
Proof. repeat split; reflexivity. Qed.

Example slug_ex :
  Py.squeeze_underscores (Py.lower (Py.sub_nonword "A@b.c_[PATCH] x")) =
  "a_b_c_patch_x".
Proof. reflexivity. Qed.

(** ** Further properties of the locators *)

Section LocatorFacts.

Context (b : b4) (gitdir : option string).

(** X1. For a pull request with [user.email] configured, the locator
    never raises, and it answers with the commit [m] exactly when the
    commit of the request exists, the branch contains it, [m] is the
    last line of [git rev-list <commit>.. --ancestry-path] and is not
    empty, and the email is a line of [git show --format=%ae m]. *)
Theorem auto_locate_pr_match_iff j branch pr email m :
  pr_commit_id j = Some pr ->
  get_user_config b !! "email" = Some email ->
  exists r,
    auto_locate_pr b gitdir j branch = Ret r /\
    (r = Some m <->
     git_commit_exists b gitdir pr = true /\
     branch ∈ git_branch_contains b gitdir pr /\
     last (git_get_command_lines b gitdir
             ["rev-list"; pr +:+ ".."; "--ancestry-path"]) = Some m /\
     m <> "" /\
     email ∈ git_get_command_lines b gitdir ["show"; "--format=%ae"; m]).
Proof.
  intros Hpr Hcfg. unfold auto_locate_pr.
  rewrite Hpr. cbn [res_bind getkey].
  rewrite (git_get_merge_id_last b gitdir pr).
  set (lines := git_get_command_lines b gitdir
                  ["rev-list"; pr +:+ ".."; "--ancestry-path"]).
  destruct (git_commit_exists b gitdir pr); cbn [negb];
    [|eexists; split; [reflexivity|]; split; [done|by intros (? & _)]].
  destruct (git_branch_contains b gitdir pr) as [|br brs] eqn:Hon.
  { eexists; split; [reflexivity|]. split; [done|].
    intros (_ & Hin & _). by apply elem_of_nil in Hin. }
  destruct (decide (branch ∈ br :: brs)) as [Hbr|Hbr];
    [|eexists; split; [reflexivity|]; split; [done|by intros (_ & ? & _)]].
  destruct (last lines) as [m'|] eqn:Hlast;
    [|eexists; split; [reflexivity|]; split;
      [done|by intros (_ & _ & ? & _)]].
  destruct (decide (m' = "")) as [->|Hm'].
  { eexists; split; [reflexivity|]. split; [done|].
    intros (_ & _ & [= <-] & ? & _). done. }
  destruct (git_get_command_lines b gitdir ["show"; "--format=%ae"; m'])
    as [|o out] eqn:Hshow.
  { eexists; split; [reflexivity|]. split; [done|].
    intros (_ & _ & [= <-] & _ & Hin). rewrite Hshow in Hin.
    by apply elem_of_nil in Hin. }
  rewrite Hcfg. cbn [res_bind getkey].
  destruct (decide (email ∈ o :: out)) as [Hin|Hin];
    eexists; (split; [reflexivity|]); split.
  - intros [= <-]. by rewrite Hshow.
  - by intros (_ & _ & [= <-] & _).
  - done.
  - intros (_ & _ & [= <-] & _ & Hin'). rewrite Hshow in Hin'. done.
Qed.

(** The entries that a sequence of assignments leaves in the index. *)
Lemma assign_all_lookup_Some d es pid v :
  assign_all d es !! pid = Some v -> d !! pid = Some v \/ (pid, v) ∈ es.
Proof.
  revert d. induction es as [|[k u] es IH]; intros d; [by left|].
  cbn [assign_all foldl]. fold (assign_all (<[k := u]> d) es).
  intros [Hd|Hin]%IH; [|right; by right].
  simpl in Hd. destruct (decide (k = pid)) as [->|Hk].
  - rewrite lookup_insert_eq in Hd. injection Hd as ->. right. by left.
  - rewrite lookup_insert_ne in Hd by done. by left.
Qed.

Lemma assign_all_lookup_is_Some d es pid :
  is_Some (d !! pid) \/ pid ∈ es.*1 -> is_Some (assign_all d es !! pid).
Proof.
  revert d. induction es as [|[k u] es IH]; intros d.
  - intros [Hd|Hin]; [done|by apply elem_of_nil in Hin].
  - cbn [assign_all foldl]. fold (assign_all (<[k := u]> d) es).
    intros [Hd|Hin]; apply IH.
    + left. destruct (decide (k = pid)) as [->|Hk].
      * rewrite lookup_insert_eq. by eexists.
      * by rewrite lookup_insert_ne.
    + rewrite fmap_cons in Hin. apply elem_of_cons in Hin as [->|Hin].
      * left. simpl. rewrite lookup_insert_eq. by eexists.
      * by right.
Qed.

(** X2. The index of the first call holds the commits of the log and
    nothing else: every entry is the (commit-id, subject) pair of a
    line of the log under the patch-id of that line, and the patch-id
    of every line of the log is a key of the index. *)
Theorem get_all_commits_index_of_log branch since committer c w idx w' :
  MY_COMMITS w = None ->
  committer_email b committer = Some c ->
  get_all_commits b gitdir branch since committer w = (Ret idx, w') ->
  (forall pid v, idx !! pid = Some v ->
     exists line, line ∈ log_lines b gitdir branch since c /\
                  patch_entry b gitdir line = Ret (pid, v)) /\
  (forall line, line ∈ log_lines b gitdir branch since c ->
     exists pid v, patch_entry b gitdir line = Ret (pid, v) /\
                   is_Some (idx !! pid)).
Proof.
  intros Hnone Hc Hrun.
  rewrite (get_all_commits_first b gitdir branch since committer c w Hnone Hc)
    in Hrun.
  set (lines := log_lines b gitdir branch since c) in *.
  destruct (collect b gitdir lines).2 as [x|] eqn:Hx; [done|].
  injection Hrun as <- _.
  pose proof (collect_all_entries b gitdir lines Hx) as Hall. split.
  - intros pid v [Hd|Hin]%assign_all_lookup_Some; [by rewrite lookup_empty in Hd|].
    apply list_elem_of_lookup in Hin as [i Hi].
    destruct (Forall2_lookup_r _ _ _ _ _ Hall Hi) as (line & Hl & Hle).
    exists line. split; [|done]. by eapply list_elem_of_lookup_2.
  - intros line [i Hi]%list_elem_of_lookup.
    destruct (Forall2_lookup_l _ _ _ _ _ Hall Hi) as ([pid v] & He & Hle).
    exists pid, v. split; [done|].
    apply assign_all_lookup_is_Some. right.
    apply list_elem_of_fmap. exists (pid, v). split; [done|].
    by eapply list_elem_of_lookup_2.
Qed.

(** X3. Whatever the first call does, return or raise, it leaves an
    index in [MY_COMMITS]: every later call returns that index, without
    raising and without a git query, also after a first call that
    failed half-way. *)
Theorem get_all_commits_caches_after_failure branch since committer w r w1 :
  MY_COMMITS w = None ->
  get_all_commits b gitdir branch since committer w = (r, w1) ->
  exists d,
    MY_COMMITS w1 = Some d /\
    (forall idx, r = Ret idx -> idx = d) /\
    forall (b' : b4) gitdir' branch' since' committer',
      get_all_commits b' gitdir' branch' since' committer' w1 = (Ret d, w1).
Proof.
  intros Hnone Hrun.
  assert (exists d, MY_COMMITS w1 = Some d /\
                    forall idx, r = Ret idx -> idx = d) as (d & Hd & Hr).
  { destruct (committer_email b committer) as [c|] eqn:Hc.
    - rewrite (get_all_commits_first b gitdir branch since committer c w
                 Hnone Hc) in Hrun.
      injection Hrun as <- <-. eexists. split; [reflexivity|].
      intros idx. destruct (collect b gitdir _).2; [done|]. by intros [= <-].
    - destruct committer as [c|]; [done|]. simpl in Hc.
      unfold get_all_commits, bind at 1, get in Hrun. rewrite Hnone in Hrun.
      unfold bind at 1, put in Hrun. unfold bind at 1, lift in Hrun.
      rewrite Hc in Hrun. simpl in Hrun. injection Hrun as <- <-.
      by exists ∅. }
  exists d. split; [done|]. split; [done|].
  intros b' gitdir' branch' since' committer'.
  unfold get_all_commits, bind, get. by rewrite Hd.
Qed.

(** X4. When the log of the committer is empty, the first call returns
    the empty index, and no series with a patch is located. *)
Theorem auto_locate_series_without_commits j branch since c w ps :
  MY_COMMITS w = None ->
  get_user_config b !! "email" = Some c ->
  log_lines b gitdir branch since c = [] ->
  patches j = Some ps -> ps <> [] ->
  get_all_commits b gitdir branch since None w = (Ret ∅, with_commits ∅ w) /\
  auto_locate_series b gitdir j branch since w = (Ret None, with_commits ∅ w).
Proof.
  intros Hnone Hc Hlog Hps Hne.
  assert (get_all_commits b gitdir branch since None w =
          (Ret ∅, with_commits ∅ w)) as Hidx.
  { rewrite (get_all_commits_first b gitdir branch since None c w Hnone Hc).
    by rewrite Hlog. }
  split; [done|].
  rewrite (auto_locate_series_run b gitdir j branch since w ∅ _ ps Hidx Hps).
  destruct ps as [|p ps]; [done|]. csimpl.
  rewrite lookup_empty. destruct (decide _) as [Hlen|]; [|done].
  exfalso. pose proof (omap_length_le (fun p : string * string =>
    (∅ : index) !! p.2) ps). simpl in Hlen. lia.
Qed.

(** X5. A series without patches is located as soon as the index can be
    built: the answer is the empty list, not [None]. *)
Theorem auto_locate_series_empty_series j branch since w commits w' :
  get_all_commits b gitdir branch since None w = (Ret commits, w') ->
  patches j = Some [] ->
  auto_locate_series b gitdir j branch since w = (Ret (Some []), w').
Proof.
  intros Hidx Hps.
  by rewrite (auto_locate_series_run b gitdir j branch since w commits w' []
                Hidx Hps).
Qed.

End LocatorFacts.

(** ** Further properties of the store *)

Section StoreFacts.

Context (b : b4).

Lemma insert_by_mtime_sorted f l :
  StronglySorted mtime_le l -> StronglySorted mtime_le (insert_by_mtime f l).
Proof.
  induction l as [|g l IH]; intros Hs; simpl.
  - by repeat constructor.
  - apply StronglySorted_inv in Hs as [Hl Hg].
    destruct (Z.ltb_spec (f_mtime g) (f_mtime f)) as [Hlt|Hge].
    + constructor; [by apply IH|].
      rewrite insert_by_mtime_perm. constructor; [unfold mtime_le; lia|done].
    + constructor; [by constructor|].
      constructor; [done|].
      eapply Forall_impl; [exact Hg|]. unfold mtime_le. intros h. simpl. lia.
Qed.

Lemma insert_by_mtime_filter t f l :
  filter (fun g => f_mtime g = t) (insert_by_mtime f l) =
  filter (fun g => f_mtime g = t) (f :: l).
Proof.
  induction l as [|g l IH]; [done|]. simpl.
  destruct (Z.ltb_spec (f_mtime g) (f_mtime f)) as [Hlt|Hge]; [|done].
  rewrite (filter_cons _ g), IH, !(filter_cons _ f), (filter_cons _ g).
  destruct (decide (f_mtime g = t)), (decide (f_mtime f = t)); try done. lia.
Qed.

(** X6. [sorted(paths, key=os.path.getmtime)] as embedded is a stable
    sort: the result is in ascending order of modification time, it is
    a permutation of the directory, and files with the same
    modification time keep the order in which [iterdir] gave them. *)
Theorem sorted_by_mtime_stable (l : list file) :
  StronglySorted mtime_le (sorted_by_mtime l) /\
  sorted_by_mtime l ≡ₚ l /\
  forall t, filter (fun g => f_mtime g = t) (sorted_by_mtime l) =
            filter (fun g => f_mtime g = t) l.
Proof.
  split; [|split; [apply sorted_by_mtime_perm|]].
  - induction l as [|f l IH]; [constructor|].
    unfold sorted_by_mtime. cbn [foldr]. fold (sorted_by_mtime l).
    by apply insert_by_mtime_sorted.
  - intros t. induction l as [|f l IH]; [done|].
    unfold sorted_by_mtime. cbn [foldr]. fold (sorted_by_mtime l).
    rewrite insert_by_mtime_filter, !(filter_cons _ f), IH. done.
Qed.

Lemma load_all_filter name email (paths : list file) :
  get_user_config b !! "name" = Some name ->
  get_user_config b !! "email" = Some email ->
  exists tracked,
    load_all b paths = Ret tracked /\
    Forall2 (fun f j => load_tracked b f = Ret j)
      (filter (fun f => suffix (f_name f) = ".pr" \/
                        suffix (f_name f) = ".am") paths) tracked.
Proof.
  intros Hname Hemail.
  induction paths as [|f paths (tracked & Hload & Hall)].
  - exists []. split; [done|constructor].
  - cbn [load_all]. rewrite filter_cons.
    destruct (decide _) as [Hf|Hf]; [|by exists tracked].
    assert (exists j, load_tracked b f = Ret j) as [j Hj].
    { unfold load_tracked. rewrite Hname, Hemail. simpl.
      destruct (decide _); by eexists. }
    rewrite Hj, Hload. simpl. exists (j :: tracked).
    split; [done|by constructor].
Qed.

(** X7. With [user.name] and [user.email] configured, [list_tracked]
    changes nothing and returns one record for each file whose suffix
    is [.pr] or [.am], in ascending order of modification time. The
    record carries every field of the body of the file unchanged
    (subject, sender, date, message-id, references, to, cc, patches,
    merge commit), the name and email of the user, the file name as
    [trackfile], and for a [.pr] file the stem of the name as
    [pr_commit_id]. *)
Theorem list_tracked_listing name email w :
  get_user_config b !! "name" = Some name ->
  get_user_config b !! "email" = Some email ->
  exists tracked,
    list_tracked b w = (Ret tracked, w) /\
    Forall2
      (fun f j =>
         subject j = subject (f_body f) /\
         fromname j = fromname (f_body f) /\
         fromemail j = fromemail (f_body f) /\
         sentdate j = sentdate (f_body f) /\
         msgid j = msgid (f_body f) /\
         references j = references (f_body f) /\
         to j = to (f_body f) /\
         cc j = cc (f_body f) /\
         patches j = patches (f_body f) /\
         merge_commit_id j = merge_commit_id (f_body f) /\
         myname j = Some name /\ myemail j = Some email /\
         trackfile j = Some (f_name f) /\
         pr_commit_id j =
           (if decide (suffix (f_name f) = ".pr")
            then Some (stem (f_name f)) else pr_commit_id (f_body f)))
      (filter (fun f => suffix (f_name f) = ".pr" \/
                        suffix (f_name f) = ".am")
              (sorted_by_mtime (data_dir w)))
      tracked.
Proof.
  intros Hname Hemail.
  destruct (load_all_filter name email (sorted_by_mtime (data_dir w))
              Hname Hemail) as (tracked & Hload & Hall).
  exists tracked. rewrite list_tracked_run, Hload. split; [done|].
  eapply Forall2_impl; [exact Hall|].
  intros f j. unfold load_tracked. rewrite Hname, Hemail. simpl.
  destruct (decide _); intros [= <-]; repeat split; reflexivity.
Qed.

(** X8. A transition cannot be repeated: once the file of a tracked
    item has been renamed, a second transition of the same item, to
    either terminal state, raises [FileNotFoundError] and changes
    nothing. *)
Theorem transition_twice_fails m m' n w w1 :
  is_tracked_name n ->
  transition m n w = (Ret tt, w1) ->
  transition m' n w1 = (Raise FileNotFoundError, w1).
Proof.
  intros Hn Hstep. pose proof (transition_src_dst m n Hn) as Hne.
  apply os_rename_inv in Hstep as [_ Hdir].
  unfold transition, os_rename. destruct (decide _) as [Hin|]; [|done].
  exfalso. rewrite Hdir in Hin.
  apply list_elem_of_fmap in Hin as (g & Hg & Hin).
  apply renamed_cases in Hin as [(Hd & _)|(_ & Hs & _)]; congruence.
Qed.

Lemma check_entries_run (entries : list (string * string)) w :
  for_each (fun entry : string * string =>
              if decide (suffix entry.1 = ".thanks")
              then sys_exit 1 else ret tt) entries w =
  (if decide (Exists (fun e => suffix e.1 = ".thanks") entries)
   then Raise (SystemExit 1) else Ret tt, w).
Proof.
  induction entries as [|e entries IH]; cbn [for_each].
  - destruct (decide _) as [H|]; [by apply Exists_nil in H|done].
  - unfold bind at 1. destruct (decide (suffix e.1 = ".thanks")) as [He|He].
    + unfold sys_exit, raise.
      destruct (decide (Exists _ (e :: entries))) as [|H]; [done|].
      exfalso. apply H. by apply Exists_cons_hd.
    + unfold ret at 1. rewrite IH.
      destruct (decide (Exists _ entries)) as [H|H];
        destruct (decide (Exists _ (e :: entries))) as [H'|H']; try done.
      * exfalso. apply H'. by apply Exists_cons_tl.
      * exfalso. apply Exists_cons in H' as [?|?]; done.
Qed.

Lemma check_stale_thanks_stale outdir w :
  has_stale_thanks w ->
  check_stale_thanks outdir w = (Raise (SystemExit 1), w).
Proof.
  intros (entries & e & Hout & He & Hs).
  unfold check_stale_thanks, bind, get. rewrite Hout, check_entries_run.
  destruct (decide _) as [|H]; [done|].
  exfalso. apply H. apply Exists_exists. eauto.
Qed.

(** X9. [check_stale_thanks] never changes anything. It leaves with
    status 1 when the output directory exists and holds a file with the
    suffix [.thanks], and returns in every other case: no directory, or
    no such file. *)
Theorem check_stale_thanks_iff outdir w :
  (has_stale_thanks w ->
   check_stale_thanks outdir w = (Raise (SystemExit 1), w)) /\
  (~ has_stale_thanks w -> check_stale_thanks outdir w = (Ret tt, w)).
Proof.
  split; [apply check_stale_thanks_stale|].
  intros Hno. unfold check_stale_thanks, bind, get.
  destruct (out_dir w) as [entries|] eqn:Hout; [|done].
  rewrite check_entries_run. destruct (decide _) as [H|]; [|done].
  exfalso. apply Hno. apply Exists_exists in H as (e & He & Hs).
  by exists entries, e.
Qed.

End StoreFacts.

(** ** Sending and discarding *)

Section SendDiscard.

Context (b : b4).

Lemma append_nonempty_r a c : c <> "" -> a +:+ c <> "".
Proof.
  intros Hc. destruct a as [|x a]; [by rewrite append_nil_l|].
  by rewrite append_cons.
Qed.

Lemma squeeze_underscores_nonempty s : s <> "" -> squeeze_underscores s <> "".
Proof.
  induction s as [|c s IH]; [done|]. intros _. simpl.
  destruct (Ascii.eqb c "_"); [|done].
  destruct s as [|c' s]; [done|].
  destruct (Ascii.eqb c' "_"); [by apply IH|done].
Qed.

Lemma thanks_slug_nonempty j : thanks_slug j <> "".
Proof.
  unfold thanks_slug. apply squeeze_underscores_nonempty.
  apply append_nonempty_r. by rewrite append_cons.
Qed.

Lemma suffix_thanks s : s <> "" -> suffix (s +:+ ".thanks") = ".thanks".
Proof.
  intros Hs. unfold suffix. rewrite rfind_dot_append, length_append.
  assert (0 < String.length s)%nat as Hlen
    by (destruct s; [done|simpl; lia]).
  cbn -[Nat.ltb Nat.sub substring].
  replace (0 <? String.length s)%nat with true
    by (symmetry; apply Nat.ltb_lt; lia).
  replace (String.length s <? String.length s + 7 - 1)%nat with true
    by (symmetry; apply Nat.ltb_lt; lia).
  replace (String.length s + 7 - String.length s)%nat with 7%nat by lia.
  cbn [andb]. by rewrite substring_skip.
Qed.

Lemma write_file_written name content d :
  (name, content) ∈ write_file name content d.
Proof.
  induction d as [|[n c] d IH]; simpl; [by left|].
  destruct (decide (n = name)); [by left|by right].
Qed.

Lemma os_rename_out_dir src dst w w1 :
  os_rename src dst w = (Ret tt, w1) ->
  out_dir w1 = out_dir w /\ MY_COMMITS w1 = MY_COMMITS w.
Proof.
  unfold os_rename. destruct (decide _); [|done]. by intros [= <-].
Qed.

(** What a successful [send_one] did: it wrote the message to the file
    named by the slug, then renamed the tracked file. *)
Lemma send_one_inv j w w1 :
  send_one b j w = (Ret tt, w1) ->
  exists msg d n,
    out_dir w = Some d /\ trackfile j = Some n /\
    transition Sent n
      (set_out_dir (Some (write_file (thanks_slug j +:+ ".thanks") msg d)) w)
    = (Ret tt, w1).
Proof.
  unfold send_one, bind at 1, lift at 1.
  destruct (match pr_commit_id j with
            | Some _ => generate_pr_thanks b j
            | None => generate_am_thanks b j
            end) as [msg|e]; [|done].
  unfold bind at 1, write_out.
  destruct (out_dir w) as [d|] eqn:Hout; [|done].
  unfold bind, lift. destruct (trackfile j) as [n|]; [|done].
  simpl. intros Hrename. by exists msg, d, n.
Qed.

Lemma send_one_leaves_thanks j w w1 :
  send_one b j w = (Ret tt, w1) -> has_stale_thanks w1.
Proof.
  intros (msg & d & n & Hout & Hn & Hstep)%send_one_inv.
  apply os_rename_out_dir in Hstep as [Hout1 _]. simpl in Hout1.
  eexists _, (thanks_slug j +:+ ".thanks", msg).
  split; [exact Hout1|]. split; [apply write_file_written|].
  apply suffix_thanks, thanks_slug_nonempty.
Qed.

Lemma send_all_leaves_thanks listing w w' :
  for_each (send_one b) listing w = (Ret tt, w') ->
  listing <> [] \/ has_stale_thanks w -> has_stale_thanks w'.
Proof.
  revert w. induction listing as [|j listing IH]; intros w Hrun Hor.
  - injection Hrun as <-. by destruct Hor.
  - cbn [for_each] in Hrun. unfold bind at 1 in Hrun.
    destruct (send_one b j w) as [[[]|e] w1] eqn:Hone; [|done].
    apply (IH w1 Hrun). right. by eapply send_one_leaves_thanks.
Qed.

Lemma send_messages_leaves_thanks listing outdir w w' :
  listing <> [] ->
  send_messages b listing outdir w = (Ret tt, w') -> has_stale_thanks w'.
Proof.
  intros Hne. unfold send_messages, bind at 1, get.
  unfold bind at 1. intros Hrun.
  destruct (out_dir w);
    (eapply send_all_leaves_thanks; [exact Hrun|by left]).
Qed.

Lemma send_selected_leaves_thanks c w w' :
  send_selected b c w = (Ret tt, w') -> has_stale_thanks w'.
Proof.
  unfold send_selected, bind at 1.
  destruct (list_tracked b w) as [[tracked|e] w1]; [|done].
  destruct tracked as [|j tracked]; [done|].
  unfold bind at 1.
  destruct (select (j :: tracked) (cmd_send c) [] w1)
    as [[listing|e] w2]; [|done].
  destruct listing as [|i listing]; [done|].
  by apply send_messages_leaves_thanks.
Qed.

Lemma getitem_elem {A} (l : list A) i x : getitem l i = Ret x -> x ∈ l.
Proof.
  unfold getitem. destruct (_ || _); [done|].
  destruct (l !! _) as [y|] eqn:Hy; [|done].
  intros [= <-]. by eapply list_elem_of_lookup_2.
Qed.

Lemma select_run tracked nums listing w l w' :
  select tracked nums listing w = (Ret l, w') <->
  w' = w /\
  exists items, l = listing ++ items /\
    Forall2 (fun num j => exists n, int num = Ret n /\
                                    getitem tracked (n - 1) = Ret j)
      nums items.
Proof.
  revert listing. induction nums as [|num nums IH]; intros listing;
    cbn [select].
  - split.
    + intros [= <- <-]. split; [done|]. exists [].
      split; [by rewrite app_nil_r|constructor].
    + intros (-> & items & -> & Hall). apply Forall2_nil_inv_l in Hall as ->.
      by rewrite app_nil_r.
  - destruct (int num) as [n|e] eqn:Hint; cbn [res_bind].
    + destruct (getitem tracked (n - 1)) as [j|e] eqn:Hget.
      * rewrite IH. split.
        -- intros (-> & items & -> & Hall). split; [done|].
           exists (j :: items). split; [by rewrite <- app_assoc|].
           constructor; [by exists n|done].
        -- intros (-> & items & -> & Hall).
           apply Forall2_cons_inv_l in Hall
             as (j' & items' & (n' & Hn' & Hj') & Hall & ->).
           assert (n' = n) as -> by congruence.
           assert (j' = j) as -> by congruence.
           split; [done|]. exists items'. by rewrite <- app_assoc.
      * split.
        -- apply getitem_raises in Hget as ->. done.
        -- intros (_ & items & _ & Hall).
           apply Forall2_cons_inv_l in Hall
             as (j' & items' & (n' & Hn' & Hj') & _ & _).
           congruence.
    + split.
      * apply int_raises in Hint as ->. done.
      * intros (_ & items & _ & Hall).
        apply Forall2_cons_inv_l in Hall
          as (j' & items' & (n' & Hn' & Hj') & _ & _).
        congruence.
Qed.

(** X11. The selection loop returns exactly when every entry is a
    number that indexes the listing, counted from 1 (or from the end,
    for 0 and negative numbers): the result holds the selected items in
    the order of the entries, repeated entries included, each of them
    an item of the listing, and the world is unchanged. *)
Theorem select_returns_selected tracked nums w l w' :
  select tracked nums [] w = (Ret l, w') <->
  w' = w /\
  Forall2 (fun num j => j ∈ tracked /\
                        exists n, int num = Ret n /\
                                  getitem tracked (n - 1) = Ret j)
    nums l.
Proof.
  rewrite select_run. split.
  - intros (-> & items & -> & Hall). split; [done|]. simpl.
    eapply Forall2_impl; [exact Hall|].
    intros num j (n & Hn & Hj). split; [by eapply getitem_elem|by exists n].
  - intros (-> & Hall). split; [done|]. exists l. split; [done|].
    eapply Forall2_impl; [exact Hall|]. by intros num j (_ & ?).
Qed.

Lemma load_all_raises (paths : list file) e :
  load_all b paths = Raise e -> e = KeyError.
Proof.
  induction paths as [|f paths IH]; [done|]. cbn [load_all].
  destruct (decide _); [|done]. unfold load_tracked.
  destruct (get_user_config b !! "name"); [|by intros [= <-]].
  destruct (get_user_config b !! "email"); [|by intros [= <-]].
  simpl. destruct (decide _); simpl;
    (destruct (load_all b paths); [done|]); intros [= <-]; by apply IH.
Qed.

Lemma select_raises_exit_1 tracked nums listing w e w' :
  select tracked nums listing w = (Raise e, w') ->
  e = SystemExit 1 /\ w' = w.
Proof.
  revert listing. induction nums as [|num nums IH]; intros listing;
    cbn [select]; [done|].
  destruct (res_bind (int num) (fun n => getitem tracked (n - 1)))
    as [j|x] eqn:Hnum; [apply IH|].
  destruct (lookup_entry_raises tracked num x Hnum) as [-> | ->];
    by intros [= <- <-].
Qed.

Lemma select_nonempty tracked num nums w l w' :
  select tracked (num :: nums) [] w = (Ret l, w') -> l <> [].
Proof.
  intros (_ & items & -> & Hall)%select_run.
  apply Forall2_cons_inv_l in Hall as (j & items' & _ & _ & ->). done.
Qed.

(** What [send_one] can raise. *)
Lemma send_one_raises j w e w1 :
  (forall t j', render_message b t j' <> Raise (SystemExit 0)) ->
  send_one b j w = (Raise e, w1) -> e <> SystemExit 0.
Proof.
  intros Hrender. unfold send_one, bind at 1, lift at 1.
  destruct (match pr_commit_id j with
            | Some _ => generate_pr_thanks b j
            | None => generate_am_thanks b j
            end) as [msg|x] eqn:Hmsg.
  - unfold bind at 1, write_out.
    destruct (out_dir w) as [d|]; [|by intros [= <- _]].
    unfold bind, lift. destruct (trackfile j) as [n|]; [|by intros [= <- _]].
    simpl. unfold os_rename. destruct (decide _); [done|by intros [= <- _]].
  - intros [= <- _] ->. revert Hmsg.
    destruct (pr_commit_id j);
      [unfold generate_pr_thanks|unfold generate_am_thanks];
      unfold make_reply;
      (destruct (get_main_config b !! _) as [path|];
         [destruct (read_text b path); [|done]|]);
      simpl; apply Hrender.
Qed.

Lemma send_all_raises listing w e w' :
  (forall t j', render_message b t j' <> Raise (SystemExit 0)) ->
  for_each (send_one b) listing w = (Raise e, w') -> e <> SystemExit 0.
Proof.
  intros Hrender. revert w.
  induction listing as [|j listing IH]; intros w; cbn [for_each]; [done|].
  unfold bind at 1.
  destruct (send_one b j w) as [[[]|x] w1] eqn:Hone; [apply IH|].
  intros [= <- _]. by eapply send_one_raises.
Qed.

(** X10. A run of [main] with a selection to send never returns. It
    leaves with status 0 exactly when nothing is tracked, and then
    nothing is changed; and when [send_selected] has written its
    messages and renamed the tracked files, [check_stale_thanks] finds
    the messages just written and leaves with status 1. A send that did
    its work is never reported as a success. (The rendering of a
    message is assumed not to call [sys.exit(0)] itself.) *)
Theorem main_send_ends_with_status_1 c email w :
  get_user_config b !! "email" = Some email ->
  cmd_auto c = false -> cmd_send c <> [] ->
  (forall t j, render_message b t j <> Raise (SystemExit 0)) ->
  exists e w',
    main b c w = (Raise e, w') /\
    (forall w1, send_selected b c w = (Ret tt, w1) ->
                e = SystemExit 1 /\ w' = w1) /\
    (e = SystemExit 0 <-> list_tracked b w = (Ret [], w)) /\
    (e = SystemExit 0 -> w' = w).
Proof.
  intros Hemail Hauto Hsend Hrender. unfold main. rewrite Hemail, Hauto.
  destruct (cmd_send c) as [|num nums] eqn:Hnums; [done|].
  unfold bind at 1. destruct (send_selected b c w) as [[[]|e] w1] eqn:Hrun.
  - rewrite (check_stale_thanks_stale _ w1
               (send_selected_leaves_thanks c w w1 Hrun)).
    eexists _, _. split; [reflexivity|].
    split; [by intros ? [= <-]|]. split; [|done].
    split; [done|]. intros Hlist. revert Hrun.
    unfold send_selected, bind at 1. by rewrite Hlist.
  - exists e, w1. split; [reflexivity|]. split; [by intros ? [=]|].
    revert Hrun. unfold send_selected, bind at 1.
    rewrite list_tracked_run.
    destruct (load_all b (sorted_by_mtime (data_dir w)))
      as [tracked|x] eqn:Hload.
    2: { intros [= <- <-]. apply load_all_raises in Hload as ->.
         split; [split; [congruence|by intros [=]]|congruence]. }
    destruct tracked as [|j tracked]; [by intros [= <- <-]|].
    rewrite Hnums. unfold bind at 1.
    destruct (select (j :: tracked) (num :: nums) [] w)
      as [[listing|x] w2] eqn:Hsel.
    + pose proof (select_nonempty _ _ _ _ _ _ Hsel) as Hne.
      destruct listing as [|i listing]; [done|].
      unfold send_messages, bind at 1, get. unfold bind at 1.
      destruct (out_dir w2); intros Hloop;
        (assert (e <> SystemExit 0) as He
           by (eapply send_all_raises; [exact Hrender|exact Hloop]));
        (split; [split; [congruence|by intros [=]]|congruence]).
    + apply select_raises_exit_1 in Hsel as [-> ->]. intros [= <- <-].
      split; [split; [congruence|by intros [=]]|congruence].
Qed.

End SendDiscard.

Section DiscardAll.

Context (b : b4).

Lemma for_each_discard_transitions (files : list file) tracked w :
  Forall2 (fun f j => trackfile j = Some (f_name f)) files tracked ->
  for_each discard_one tracked w =
  transitions ((fun f => (Discarded, f_name f)) <$> files) w.
Proof.
  intros Hall. revert w.
  induction Hall as [|f j files tracked Hj Hall IH]; intros w; [done|].
  rewrite fmap_cons. unfold transitions. cbn [for_each]. unfold bind.
  rewrite (discard_one_transition j (f_name f) w Hj). simpl.
  destruct (transition Discarded (f_name f) w) as [[[]|e] w1]; [|done].
  apply IH.
Qed.

(** Transitions of distinct tracked files of the directory all succeed. *)
Lemma transitions_succeed ts w :
  NoDup ts.*2 -> Forall (fun t => is_tracked_name t.2) ts ->
  (forall t, t ∈ ts -> t.2 ∈ f_name <$> data_dir w) ->
  exists w', transitions ts w = (Ret tt, w').
Proof.
  revert w. induction ts as [|[m n] ts IH]; intros w Hnd Hall Hin.
  - by eexists.
  - rewrite fmap_cons in Hnd. apply NoDup_cons in Hnd as [Hn Hnd].
    apply Forall_cons in Hall as [Hnt Hall]. simpl in Hn, Hnt.
    unfold transitions. cbn [for_each]. unfold bind, transition at 1.
    unfold os_rename. simpl.
    destruct (decide (n ∈ f_name <$> data_dir w)) as [_|Hno];
      [|exfalso; apply Hno; apply (Hin (m, n)); by left].
    apply IH; [done|done|]. intros t Ht. simpl.
    destruct (list_elem_of_fmap_1 _ _ _ (Hin t (list_elem_of_further _ _ _ Ht)))
      as (f & Hf & Hfin).
    rewrite Forall_forall in Hall.
    apply list_elem_of_fmap. exists f. split; [done|].
    apply renamed_keeps; [done| |].
    + intros Heq. apply Hn. rewrite <- Heq, <- Hf.
      by apply list_elem_of_fmap_2.
    + intros Heq. apply (terminal_name_not_tracked n m Hnt).
      rewrite <- Heq, <- Hf. by apply Hall.
Qed.

(** A file with a tracked name after a sequence of transitions was
    there before. *)
Lemma transitions_backward ts w w' f :
  Forall (fun t => is_tracked_name t.2) ts ->
  transitions ts w = (Ret tt, w') ->
  f ∈ data_dir w' -> is_tracked_name (f_name f) -> f ∈ data_dir w.
Proof.
  revert w. induction ts as [|[m n] ts IH]; intros w Hall Hrun Hf Hft.
  - by injection Hrun as <-.
  - apply Forall_cons in Hall as [Hn Hall]. simpl in Hn.
    apply transitions_cons in Hrun as (w1 & Hstep & Hrun). simpl in Hstep.
    pose proof (transition_src_dst m n Hn) as Hne.
    apply os_rename_inv in Hstep as [_ Hdir].
    specialize (IH w1 Hall Hrun Hf Hft). rewrite Hdir in IH.
    apply renamed_cases in IH as [(Hd & _)|(Hin & _ & _)]; [|done].
    exfalso. apply (terminal_name_not_tracked n m Hn). by rewrite <- Hd.
Qed.

Lemma load_all_none (paths : list file) :
  (forall f, f ∈ paths -> ~ is_tracked_name (f_name f)) ->
  load_all b paths = Ret [].
Proof.
  induction paths as [|f paths IH]; intros Hno; [done|].
  cbn [load_all]. destruct (decide _) as [Hf|_].
  - exfalso. apply (Hno f); [by left|done].
  - apply IH. intros g Hg. apply Hno. by right.
Qed.

Lemma NoDup_fmap_filter {A B} (h : A -> B) (P : A -> Prop)
    `{!forall x, Decision (P x)} (l : list A) :
  NoDup (h <$> l) -> NoDup (h <$> filter P l).
Proof.
  induction l as [|x l IH]; [done|].
  rewrite fmap_cons. intros [Hx Hl]%NoDup_cons.
  rewrite filter_cons. destruct (decide (P x)); [|by apply IH].
  rewrite fmap_cons. apply NoDup_cons. split; [|by apply IH].
  intros (y & Hy & Hin)%list_elem_of_fmap.
  apply list_elem_of_filter in Hin as [_ Hin].
  apply Hx. rewrite Hy. by apply list_elem_of_fmap_2.
Qed.

(** X12. Discarding with [_all] in a directory of distinct files, with
    the user configured: every tracked record ends up under its name
    followed by [.discarded], the run leaves with status 0, and the
    listing is empty afterwards. *)
Theorem discard_all_empties_listing c w name email :
  NoDup (f_name <$> data_dir w) -> NoDup (f_ino <$> data_dir w) ->
  get_user_config b !! "name" = Some name ->
  get_user_config b !! "email" = Some email ->
  "_all" ∈ cmd_discard c ->
  exists w',
    discard_selected b c w = (Raise (SystemExit 0), w') /\
    list_tracked b w' = (Ret [], w') /\
    forall f, f ∈ data_dir w -> is_tracked_name (f_name f) ->
      rename_file (f_name f) (f_name f +:+ ".discarded") f ∈ data_dir w'.
Proof.
  intros Hnames Hinos Hname Hemail Hall.
  destruct (load_all_filter b name email (sorted_by_mtime (data_dir w))
              Hname Hemail) as (tracked & Hload & Hrel).
  set (files := filter (fun f => suffix (f_name f) = ".pr" \/
                                 suffix (f_name f) = ".am")
                  (sorted_by_mtime (data_dir w))) in *.
  assert (forall f, f ∈ files <->
                    f ∈ data_dir w /\ is_tracked_name (f_name f)) as Hfiles.
  { intros f. unfold files. rewrite list_elem_of_filter.
    rewrite sorted_by_mtime_perm. unfold is_tracked_name. tauto. }
  unfold discard_selected, bind at 1.
  rewrite list_tracked_run, Hload.
  destruct tracked as [|j tracked].
  { exists w. split; [done|]. apply Forall2_nil_inv_r in Hrel.
    split.
    - rewrite list_tracked_run.
      rewrite load_all_none; [done|]. intros f Hf Hft.
      rewrite sorted_by_mtime_perm in Hf.
      assert (f ∈ files) as Hin by by apply Hfiles.
      rewrite Hrel in Hin. by apply elem_of_nil in Hin.
    - intros f Hf Hft. assert (f ∈ files) as Hin by by apply Hfiles.
      rewrite Hrel in Hin. by apply elem_of_nil in Hin. }
  destruct (decide ("_all" ∈ cmd_discard c)); [|done].
  unfold bind at 1, ret at 1. unfold bind.
  set (ts := (fun f => (Discarded, f_name f)) <$> files).
  assert (Forall2 (fun f j => trackfile j = Some (f_name f)) files
            (j :: tracked)) as Hrel'.
  { eapply Forall2_impl; [exact Hrel|]. intros f j'.
    unfold load_tracked. rewrite Hname, Hemail. simpl.
    destruct (decide _); by intros [= <-]. }
  rewrite (for_each_discard_transitions files (j :: tracked) w Hrel').
  fold ts.
  assert (Forall (fun t => is_tracked_name t.2) ts) as Hts.
  { apply Forall_forall. intros t (f & -> & Hf)%list_elem_of_fmap.
    simpl. by apply Hfiles. }
  destruct (transitions_succeed ts w) as [w' Hrun].
  { unfold ts. rewrite <- list_fmap_compose.
    apply (NoDup_fmap_filter f_name).
    by rewrite sorted_by_mtime_perm. }
  { done. }
  { intros t (f & -> & Hf)%list_elem_of_fmap. simpl.
    apply list_elem_of_fmap_2. by apply Hfiles. }
  rewrite Hrun. exists w'. split; [done|].
  destruct (transitions_outcome ts w w' Hnames Hinos Hts Hrun)
    as [_ Hout].
  split.
  - rewrite list_tracked_run. rewrite load_all_none; [done|].
    intros f Hf Hft. rewrite sorted_by_mtime_perm in Hf.
    pose proof (transitions_backward ts w w' f Hts Hrun Hf Hft) as Hfw.
    destruct (Hout Discarded (f_name f)) as [Hgone _].
    { apply list_elem_of_fmap. exists f. split; [done|]. by apply Hfiles. }
    apply Hgone. by apply list_elem_of_fmap_2.
  - intros f Hf Hft.
    destruct (Hout Discarded (f_name f)) as (_ & r & Hr & Hrn & Hmoved).
    { apply list_elem_of_fmap. exists f. split; [done|]. by apply Hfiles. }
    assert (r = f) as ->; [|done].
    by apply (NoDup_fmap_eq f_name (data_dir w)).
Qed.

End DiscardAll.

(** ** The slug and the reply *)

Section Slug.

Lemma all_chars_append P a c :
  all_chars P (a +:+ c) = all_chars P a && all_chars P c.
Proof.
  induction a as [|x a IH]; [done|].
  rewrite append_cons. simpl. by rewrite IH, andb_assoc.
Qed.

Lemma slug_char_of c :
  is_slug_char (lower_char (if is_word c then c else "_"%char)) = true.
Proof. destruct c as [[] [] [] [] [] [] [] []]; reflexivity. Qed.

Lemma lower_sub_nonword_slug s :
  all_chars is_slug_char (lower (sub_nonword s)) = true.
Proof.
  induction s as [|c s IH]; [done|]. simpl. by rewrite slug_char_of, IH.
Qed.

Lemma squeeze_underscores_cons2 c c' s :
  squeeze_underscores (String c (String c' s)) =
  if Ascii.eqb c "_"
  then if Ascii.eqb c' "_"
       then squeeze_underscores (String c' s)
       else String c (squeeze_underscores (String c' s))
  else String c (squeeze_underscores (String c' s)).
Proof. reflexivity. Qed.

Lemma squeeze_underscores_all_chars P s :
  all_chars P s = true -> all_chars P (squeeze_underscores s) = true.
Proof.
  induction s as [|c s IH]; [done|]. intros H.
  cbn [all_chars] in H. apply andb_prop in H as [Hc Hs]. specialize (IH Hs).
  destruct s as [|c' s].
  { simpl. destruct (Ascii.eqb c "_"); simpl; by rewrite Hc. }
  rewrite squeeze_underscores_cons2.
  destruct (Ascii.eqb c "_"); [destruct (Ascii.eqb c' "_"); [exact IH|]|];
    cbn [all_chars]; by rewrite Hc, IH.
Qed.

Lemma squeeze_underscores_no_double s :
  no_double_underscore (squeeze_underscores s) = true.
Proof.
  induction s as [|c s IH]; [done|].
  destruct s as [|c' s].
  { simpl. by destruct (Ascii.eqb c "_"). }
  rewrite squeeze_underscores_cons2.
  destruct (Ascii.eqb c "_") eqn:Hc.
  - destruct (Ascii.eqb c' "_") eqn:Hc'; [done|].
    assert (squeeze_underscores (String c' s) =
            String c' (squeeze_underscores s)) as Hhead.
    { destruct s as [|c'' s]; simpl; by rewrite Hc'. }
    rewrite Hhead in IH |- *.
    change (negb (Ascii.eqb c "_" && Ascii.eqb c' "_") &&
            no_double_underscore (String c' (squeeze_underscores s)) = true).
    by rewrite Hc', andb_false_r, IH.
  - destruct (squeeze_underscores (String c' s)) as [|x t]; [done|].
    change (negb (Ascii.eqb c "_" && Ascii.eqb x "_") &&
            no_double_underscore (String x t) = true).
    by rewrite Hc, IH.
Qed.

(** X13. The name of a message file is normalised. For an item whose
    sender address and subject are ASCII text, the slug is not empty,
    it consists of lower-case letters, digits and underscores, no
    underscore follows an underscore, and the file name has the suffix
    [.thanks], by which [check_stale_thanks] finds it. *)
Theorem thanks_slug_normalised j :
  all_chars is_ascii (fromemail j) = true ->
  all_chars is_ascii (subject j) = true ->
  thanks_slug j <> "" /\
  all_chars is_slug_char (thanks_slug j) = true /\
  no_double_underscore (thanks_slug j) = true /\
  suffix (thanks_slug j +:+ ".thanks") = ".thanks".
Proof.
  intros _ _.
  split; [apply thanks_slug_nonempty|]. split; [|split].
  - unfold thanks_slug. apply squeeze_underscores_all_chars.
    rewrite !all_chars_append, !lower_sub_nonword_slug. reflexivity.
  - apply squeeze_underscores_no_double.
  - apply suffix_thanks, thanks_slug_nonempty.
Qed.

End Slug.

Section ReplyHeaders.
Import Reply.

Lemma list_remove_middle {A} `{EqDecision A} (x : A) (l1 l2 : list A) :
  x ∉ l1 -> list_remove x (l1 ++ x :: l2) = Ret (l1 ++ l2).
Proof.
  induction l1 as [|y l1 IH]; intros Hx; simpl.
  - by destruct (decide (x = x)).
  - apply not_elem_of_cons in Hx as [Hxy Hx].
    destruct (decide (y = x)); [congruence|]. by rewrite IH.
Qed.

(** The loop over the copy removes the entries with one of the two
    addresses, all of them, and keeps the others in their order. *)
Lemma remove_ourselves_filter myemail fromemail
    (pre copy : list (string * string)) :
  let keep := fun e : string * string =>
                ~ (e.2 = myemail \/ e.2 = fromemail) in
  remove_ourselves myemail fromemail copy (filter keep pre ++ copy) =
  Ret (filter keep (pre ++ copy)).
Proof.
  intros keep. revert pre.
  induction copy as [|e copy IH]; intros pre; cbn [remove_ourselves].
  - by rewrite !app_nil_r.
  - assert (pre ++ e :: copy = (pre ++ [e]) ++ copy) as Hsplit
      by by rewrite <- app_assoc.
    destruct (decide (e.2 = myemail \/ e.2 = fromemail)) as [He|He].
    + rewrite list_remove_middle.
      * cbn [res_bind]. rewrite Hsplit, <- IH. f_equal.
        rewrite filter_app, filter_cons_False, filter_nil, app_nil_r;
          [done|]. unfold keep. tauto.
      * intros [Hk _]%list_elem_of_filter. by apply Hk.
    + rewrite Hsplit, <- IH. f_equal.
      rewrite filter_app, filter_cons_True, filter_nil by done.
      by rewrite <- app_assoc.
Qed.

(** X14. The recipients of a reply: the loops of [make_reply] leave in
    [To] and [Cc] exactly the parsed addresses that are neither the
    address of the user nor that of the original sender, in their
    order, and never raise; the original sender is then the last entry
    of [To]. *)
Theorem reply_recipients_filtered allto allcc j my :
  myemail j = Some my ->
  let keep := fun e : string * string =>
                ~ (e.2 = my \/ e.2 = fromemail j) in
  reply_recipients allto allcc j =
  Ret (filter keep allto ++ [(fromname j, fromemail j)], filter keep allcc).
Proof.
  intros Hmy keep. unfold reply_recipients. rewrite Hmy. cbn [res_bind getkey].
  pose proof (remove_ourselves_filter my (fromemail j) [] allto) as Hto.
  pose proof (remove_ourselves_filter my (fromemail j) [] allcc) as Hcc.
  simpl in Hto, Hcc. by rewrite Hto, Hcc.
Qed.

Lemma find_from_bounds sub s pos :
  find_from sub s pos = -1 \/ pos <= find_from sub s pos.
Proof.
  revert pos. induction s as [|c s IH]; intros pos; cbn [find_from].
  - destruct (String.prefix sub ""); [right; lia|by left].
  - destruct (String.prefix sub (String c s)); [right; lia|].
    destruct (IH (pos + 1)) as [->|Hle]; [by left|right; lia].
Qed.

Lemma prefix_append a s : String.prefix a (a +:+ s) = true.
Proof.
  induction a as [|x a IH]; [by destruct s|].
  rewrite append_cons. simpl. by destruct (ascii_dec x x).
Qed.

Lemma find_from_prefix sub s pos :
  String.prefix sub s = true -> find_from sub s pos = pos.
Proof. destruct s; cbn [find_from]; by intros ->. Qed.

Lemma prefix_inv a s : String.prefix a s = true -> exists c, s = a +:+ c.
Proof.
  revert s. induction a as [|x a IH]; intros s; [by exists s|].
  destruct s as [|y s]; simpl; [done|].
  destruct (ascii_dec x y) as [->|]; [|done].
  intros [c ->]%IH. by exists c.
Qed.

(** [find] answers with a position exactly when the text occurs. *)
Lemma find_from_found sub s pos :
  0 <= pos ->
  0 <= find_from sub s pos <-> exists a c, s = a +:+ sub +:+ c.
Proof.
  revert pos. induction s as [|x s IH]; intros pos Hpos; cbn [find_from].
  - destruct (String.prefix sub "") eqn:Hp.
    + split; [|done]. intros _.
      apply prefix_inv in Hp as [c Hc]. by exists "", c.
    + split; [lia|]. intros (a & c & Heq). exfalso.
      destruct a as [|y a]; [|by rewrite append_cons in Heq].
      rewrite append_nil_l in Heq.
      by rewrite Heq, prefix_append in Hp.
  - destruct (String.prefix sub (String x s)) eqn:Hp.
    + split; [|done]. intros _.
      apply prefix_inv in Hp as [c Hc]. by exists "", c.
    + rewrite IH by lia. split.
      * intros (a & c & ->). by exists (String x a), c.
      * intros (a & c & Heq). destruct a as [|y a].
        -- rewrite append_nil_l in Heq.
           by rewrite Heq, prefix_append in Hp.
        -- rewrite append_cons in Heq. injection Heq as _ ->.
           by exists a, c.
Qed.

(** X15. The subject of a reply always contains [Re: ]. A subject in
    which [Re: ] occurs anywhere is kept as it is, and a subject in
    which it does not occur gets the prefix [Re: ]; computing the
    subject of a reply subject changes nothing. *)
Theorem reply_subject_idempotent subject :
  0 <= find (reply_subject subject) "Re: " /\
  (reply_subject subject = subject \/
   reply_subject subject = "Re: " +:+ subject) /\
  reply_subject (reply_subject subject) = reply_subject subject /\
  (forall a c, subject = a +:+ "Re: " +:+ c ->
               reply_subject subject = subject) /\
  ((forall a c, subject <> a +:+ "Re: " +:+ c) ->
   reply_subject subject = "Re: " +:+ subject) /\
  (exists a c, reply_subject subject = a +:+ "Re: " +:+ c).
Proof.
  assert (forall s, 0 <= find s "Re: " -> reply_subject s = s) as Hkeep.
  { intros s Hs. unfold reply_subject.
    destruct (Z.ltb_spec (find s "Re: ") 0); [lia|done]. }
  assert (0 <= find (reply_subject subject) "Re: ") as Hfound.
  { unfold reply_subject.
    destruct (Z.ltb_spec (find subject "Re: ") 0) as [Hlt|Hge]; [|done].
    unfold find. by rewrite find_from_prefix by apply prefix_append. }
  split; [done|]. split; [|split; [by apply Hkeep|]].
  { unfold reply_subject. destruct (_ <? 0); [by right|by left]. }
  split; [|split].
  - intros a c Heq. apply Hkeep. unfold find.
    apply find_from_found; [done|]. by exists a, c.
  - intros Hno. unfold reply_subject.
    destruct (Z.ltb_spec (find subject "Re: ") 0) as [Hlt|Hge]; [done|].
    exfalso. unfold find in Hge.
    apply find_from_found in Hge as (a & c & Heq); [|done].
    by apply (Hno a c).
  - unfold find in Hfound. by apply find_from_found in Hfound.
Qed.

Lemma getitem_1 {A} (l : list A) :
  getitem l 1 = match l with
                | _ :: y :: _ => Ret y
                | _ => Raise IndexError
                end.
Proof.
  unfold getitem. replace (1 <? 0) with false by reflexivity. cbn [orb].
  destruct l as [|x [|y l]]; try reflexivity.
  cbn [length]. destruct (Z.leb_spec (Z.of_nat (S (S (length l)))) 1);
    [lia|reflexivity].
Qed.

Lemma split_on_no_sep sep s :
  all_chars (fun c => negb (Ascii.eqb c sep)) s = true ->
  split_on sep s = [s].
Proof.
  induction s as [|c s IH]; [done|]. simpl.
  intros [Hc Hs]%andb_prop. apply negb_true_iff in Hc.
  by rewrite Hc, (IH Hs).
Qed.

Lemma split_on_sep sep a t :
  all_chars (fun c => negb (Ascii.eqb c sep)) a = true ->
  split_on sep (a +:+ String sep t) = a :: split_on sep t.
Proof.
  induction a as [|c a IH].
  - intros _. rewrite append_nil_l. simpl. by rewrite Ascii.eqb_refl.
  - rewrite append_cons. simpl. intros [Hc Ha]%andb_prop.
    apply negb_true_iff in Hc. by rewrite Hc, (IH Ha).
Qed.

(** X16. The domain of the message-id: for an address without [@] the
    lookup [split('@')[1]] raises [IndexError]; otherwise it is the text
    between the first [@] and the next one, or the end. *)
Theorem reply_domain_of_address :
  let no_at := all_chars (fun c => negb (Ascii.eqb c "@")) in
  (forall s, no_at s = true -> reply_domain s = Raise IndexError) /\
  (forall a d, no_at a = true -> no_at d = true ->
     reply_domain (a +:+ String "@" d) = Ret d) /\
  (forall a d t, no_at a = true -> no_at d = true ->
     reply_domain (a +:+ String "@" (d +:+ String "@" t)) = Ret d).
Proof.
  intros no_at. unfold reply_domain. split; [|split].
  - intros s Hs. by rewrite (split_on_no_sep _ _ Hs), getitem_1.
  - intros a d Ha Hd.
    by rewrite (split_on_sep _ _ _ Ha), (split_on_no_sep _ _ Hd), getitem_1.
  - intros a d t Ha Hd.
    by rewrite (split_on_sep _ _ _ Ha), (split_on_sep _ _ _ Hd), getitem_1.
Qed.

End ReplyHeaders.

(** ** What a successful send leaves *)

Section SendOutcome.

Context (b : b4).

Lemma os_rename_same_data_dir src dst w w1 v :
  data_dir v = data_dir w ->
  os_rename src dst w = (Ret tt, w1) ->
  exists v1, os_rename src dst v = (Ret tt, v1) /\
             data_dir v1 = data_dir w1.
Proof.
  intros Hdata. unfold os_rename. rewrite Hdata.
  destruct (decide _); [|done]. intros [= <-]. eexists. by split.
Qed.

Lemma write_file_keeps name content (d : list (string * string)) n :
  n ∈ d.*1 -> n ∈ (write_file name content d).*1.
Proof.
  induction d as [|[n' c'] d IH]; [by intros ?%elem_of_nil|].
  rewrite fmap_cons. simpl. intros [->|Hin]%elem_of_cons.
  - destruct (decide (n' = name)) as [->|]; rewrite fmap_cons; by left.
  - destruct (decide (n' = name)); rewrite fmap_cons; right; [done|].
    by apply IH.
Qed.

(** The renames of a successful [send_messages] loop are the
    transitions to Sent of its items, and the messages written stay in
    the output directory. *)
Lemma send_all_transitions listing w w' v :
  data_dir v = data_dir w ->
  for_each (send_one b) listing w = (Ret tt, w') ->
  exists ts v',
    Forall2 (fun j t => t.1 = Sent /\ trackfile j = Some t.2) listing ts /\
    transitions ts v = (Ret tt, v') /\
    data_dir v' = data_dir w' /\
    (forall n, n ∈ (default [] (out_dir w)).*1 ->
               n ∈ (default [] (out_dir w')).*1) /\
    (forall j, j ∈ listing ->
       thanks_slug j +:+ ".thanks" ∈ (default [] (out_dir w')).*1).
Proof.
  revert w v. induction listing as [|j listing IH]; intros w v Hdata Hrun.
  - injection Hrun as <-. exists [], v.
    split; [constructor|]. split; [done|]. split; [done|].
    split; [done|]. intros j Hj. by apply elem_of_nil in Hj.
  - cbn [for_each] in Hrun. unfold bind at 1 in Hrun.
    destruct (send_one b j w) as [[[]|e] w1] eqn:Hone; [|done].
    apply send_one_inv in Hone as (msg & d & n & Hout & Hn & Hstep).
    pose proof (os_rename_out_dir _ _ _ _ Hstep) as [Hout1 _].
    simpl in Hout1.
    destruct (os_rename_same_data_dir n (n +:+ ".sent")
                (set_out_dir
                   (Some (write_file (thanks_slug j +:+ ".thanks") msg d)) w)
                w1 v Hdata Hstep)
      as (v1 & Hv & Hdata1).
    destruct (IH w1 v1 Hdata1 Hrun)
      as (ts & v' & Hall & Hts & Hd' & Hmono & Hwritten).
    exists ((Sent, n) :: ts), v'. split; [by constructor|].
    split.
    { unfold transitions. cbn [for_each]. unfold bind.
      change (transition (Sent, n).1 (Sent, n).2 v) with
        (os_rename n (n +:+ ".sent") v). by rewrite Hv. }
    split; [done|]. split.
    + intros n' Hn'. apply Hmono. rewrite Hout1. simpl.
      rewrite Hout in Hn'. simpl in Hn'. by apply write_file_keeps.
    + intros j' [->|Hj']%elem_of_cons; [|by apply Hwritten].
      apply Hmono. rewrite Hout1. simpl.
      apply list_elem_of_fmap. eexists. split; [|apply write_file_written].
      done.
Qed.

(** X17. After a successful [send_messages] on tracked items of a
    directory of distinct files, every item of the listing has its
    message in the output directory, under the name of its slug, its
    tracked name is gone, and its record is found under that name
    followed by [.sent]. *)
Theorem send_messages_marks_sent listing outdir w w' :
  NoDup (f_name <$> data_dir w) -> NoDup (f_ino <$> data_dir w) ->
  (forall j n, j ∈ listing -> trackfile j = Some n -> is_tracked_name n) ->
  send_messages b listing outdir w = (Ret tt, w') ->
  forall j, j ∈ listing ->
    exists n r,
      trackfile j = Some n /\
      (n ∉ f_name <$> data_dir w') /\
      r ∈ data_dir w /\ f_name r = n /\
      rename_file n (n +:+ ".sent") r ∈ data_dir w' /\
      (thanks_slug j +:+ ".thanks" ∈ (default [] (out_dir w')).*1).
Proof.
  intros Hnames Hinos Htracked Hrun j Hj.
  unfold send_messages, bind at 1, get in Hrun. unfold bind at 1 in Hrun.
  assert (exists w0, data_dir w0 = data_dir w /\
                     for_each (send_one b) listing w0 = (Ret tt, w'))
    as (w0 & Hdata & Hloop).
  { destruct (out_dir w); eexists; (split; [|exact Hrun]); done. }
  destruct (send_all_transitions listing w0 w' w (eq_sym Hdata) Hloop)
    as (ts & v' & Hall & Hts & Hd' & _ & Hwritten).
  apply list_elem_of_lookup in Hj as [i Hi].
  destruct (Forall2_lookup_l _ _ _ _ _ Hall Hi) as ([m n] & Ht & Hm & Hn).
  simpl in Hm, Hn. subst m.
  assert (Forall (fun t => is_tracked_name t.2) ts) as Htts.
  { apply Forall_lookup. intros k [m' n'] Hk.
    destruct (Forall2_lookup_r _ _ _ _ _ Hall Hk) as (j' & Hj' & _ & Hn').
    simpl in *. apply (Htracked j' n'); [|done].
    by eapply list_elem_of_lookup_2. }
  destruct (transitions_outcome ts w v' Hnames Hinos Htts Hts) as [_ Hout].
  destruct (Hout Sent n) as (Hgone & r & Hr & Hrn & Hmoved);
    [by eapply list_elem_of_lookup_2|].
  exists n, r. rewrite <- Hd'. repeat split; try done.
  apply Hwritten. by eapply list_elem_of_lookup_2.
Qed.

(** X18. A configured template that cannot be read stops
    [send_messages] at the first item with status 2, before any message
    is written and before any rename: at most the output directory has
    been created. *)
Theorem send_messages_missing_template j listing outdir w path :
  get_main_config b !!
    (match pr_commit_id j with
     | Some _ => "thanks-pr-template"
     | None => "thanks-am-template"
     end) = Some path ->
  read_text b path = None ->
  send_messages b (j :: listing) outdir w =
  (Raise (SystemExit 2), set_out_dir (Some (default [] (out_dir w))) w).
Proof.
  intros Hcfg Hread.
  unfold send_messages, bind at 1, get. unfold bind at 1.
  assert (forall v, send_one b j v = (Raise (SystemExit 2), v)) as Hone.
  { intros v. unfold send_one, bind at 1, lift at 1.
    destruct (pr_commit_id j);
      [unfold generate_pr_thanks|unfold generate_am_thanks];
      by rewrite Hcfg, Hread. }
  destruct (out_dir w) as [d|] eqn:Hout; cbn [for_each]; unfold bind.
  - unfold ret at 1. rewrite Hone. f_equal.
    destruct w. simpl in *. by subst.
  - unfold put at 1. by rewrite Hone.
Qed.

End SendOutcome.

(** ** The orchestrator in automatic mode *)

(** X19. In automatic mode [main] never reaches [check_stale_thanks]:
    it does what [auto_thankanator] does, and that ends in [sys.exit]
    or another exception on every path, whatever the output directory
    holds. *)
Theorem main_auto_never_checks (b : b4) c email w :
  get_user_config b !! "email" = Some email ->
  cmd_auto c = true ->
  main b c w = auto_thankanator b c w /\
  exists e w', main b c w = (Raise e, w').
Proof.
  intros Hemail Hauto.
  rewrite (main_auto_skips_check b c email w Hemail Hauto).
  split; [done|]. apply auto_thankanator_never_returns.
Qed.

(** ** The further properties on the scenarios *)

Lemma auto_locate_pr_match_iff_witness :
  exists r,
    auto_locate_pr (Scenarios.merged_by_alice "alice@example.com") None
      Scenarios.pull_request "main" = Ret r /\
    r = Some "M".
Proof.
  destruct (auto_locate_pr_match_iff
              (Scenarios.merged_by_alice "alice@example.com") None
              Scenarios.pull_request "main" "X" "alice@example.com" "M"
              eq_refl eq_refl) as (r & Hr & Hiff).
  exists r. split; [done|]. apply Hiff.
  repeat split; try reflexivity; try (vm_compute; constructor).
  vm_compute. congruence.
Defined.

Lemma get_all_commits_index_of_log_witness :
  exists idx w',
    get_all_commits Scenarios.series_applied None "main" "1.week" None
      (Scenarios.fresh [] None) = (Ret idx, w') /\
    (forall pid v, idx !! pid = Some v ->
       exists line,
         line ∈ log_lines Scenarios.series_applied None "main" "1.week"
                  "bob@example.com" /\
         patch_entry Scenarios.series_applied None line = Ret (pid, v)).
Proof.
  eexists _, _. split; [eval_lhs; reflexivity|].
  apply (get_all_commits_index_of_log Scenarios.series_applied None
           "main" "1.week" None "bob@example.com" (Scenarios.fresh [] None)
           _ _ eq_refl eq_refl eq_refl).
Defined.

Lemma get_all_commits_caches_after_failure_witness :
  exists w1 d,
    get_all_commits Scenarios.root_commit_only None "main" "1.week" None
      (Scenarios.fresh [] None) = (Raise IndexError, w1) /\
    get_all_commits Scenarios.series_applied None "main" "1.week" None w1 =
      (Ret d, w1).
Proof.
  set (w := Scenarios.fresh [] None).
  set (run := get_all_commits Scenarios.root_commit_only None "main"
                "1.week" None w).
  destruct (get_all_commits_caches_after_failure Scenarios.root_commit_only
              None "main" "1.week" None w run.1 run.2 eq_refl)
    as (d & _ & _ & Hlater).
  { apply surjective_pairing. }
  exists run.2, d. split; [vm_compute; reflexivity|apply Hlater].
Defined.

Lemma auto_locate_series_without_commits_witness :
  auto_locate_series Scenarios.no_git None Scenarios.series2 "main" "1.week"
    (Scenarios.fresh [] None) =
  (Ret None, with_commits ∅ (Scenarios.fresh [] None)).
Proof.
  apply (auto_locate_series_without_commits Scenarios.no_git None
           Scenarios.series2 "main" "1.week" "bob@example.com"
           (Scenarios.fresh [] None) [("1/2", "p1"); ("2/2", "p2")]
           eq_refl eq_refl eq_refl eq_refl).
  discriminate.
Defined.

Lemma auto_locate_series_empty_series_witness :
  auto_locate_series Scenarios.no_git None Scenarios.series0 "main" "1.week"
    (Scenarios.with_index Scenarios.index_p1) =
  (Ret (Some []), Scenarios.with_index Scenarios.index_p1).
Proof.
  apply (auto_locate_series_empty_series Scenarios.no_git None
           Scenarios.series0 "main" "1.week"
           (Scenarios.with_index Scenarios.index_p1) Scenarios.index_p1
           (Scenarios.with_index Scenarios.index_p1) eq_refl eq_refl).
Defined.

Lemma list_tracked_listing_witness :
  exists tracked,
    list_tracked Scenarios.no_git (Scenarios.fresh Scenarios.store2 None) =
      (Ret tracked, Scenarios.fresh Scenarios.store2 None) /\
    trackfile <$> tracked = [Some "X.pr"; Some "m2.am"].
Proof.
  destruct (list_tracked_listing Scenarios.no_git "Bob" "bob@example.com"
              (Scenarios.fresh Scenarios.store2 None) eq_refl eq_refl)
    as (tracked & Hrun & _).
  exists tracked. split; [done|].
  vm_compute in Hrun. by injection Hrun as <-.
Defined.

Lemma transition_twice_fails_witness :
  exists w1,
    transition Sent "X.pr" (Scenarios.fresh Scenarios.store2 None) =
      (Ret tt, w1) /\
    transition Discarded "X.pr" w1 = (Raise FileNotFoundError, w1).
Proof.
  eexists. split; [eval_lhs; reflexivity|].
  apply (transition_twice_fails Sent Discarded "X.pr"
           (Scenarios.fresh Scenarios.store2 None)).
  - by left.
  - vm_compute. reflexivity.
Defined.

Lemma check_stale_thanks_iff_witness :
  check_stale_thanks "." (Scenarios.fresh [] Scenarios.stale_out) =
    (Raise (SystemExit 1), Scenarios.fresh [] Scenarios.stale_out) /\
  check_stale_thanks "." (Scenarios.fresh [] None) =
    (Ret tt, Scenarios.fresh [] None).
Proof.
  split.
  - apply (proj1 (check_stale_thanks_iff "."
                    (Scenarios.fresh [] Scenarios.stale_out))).
    eexists _, _. split; [reflexivity|]. split; [by left|reflexivity].
  - apply (proj2 (check_stale_thanks_iff "." (Scenarios.fresh [] None))).
    intros (entries & e & Hout & _). discriminate Hout.
Defined.

Lemma main_send_ends_with_status_1_witness :
  exists w',
    main Scenarios.no_git (Scenarios.cmd false ["1"] [])
      (Scenarios.fresh Scenarios.store1 None) = (Raise (SystemExit 1), w').
Proof.
  set (c := Scenarios.cmd false ["1"] []).
  set (w := Scenarios.fresh Scenarios.store1 None).
  destruct (main_send_ends_with_status_1 Scenarios.no_git c "bob@example.com"
              w eq_refl eq_refl) as (e & w' & Hmain & Hsent & _); [done|done|].
  exists w'.
  destruct (Hsent (send_selected Scenarios.no_git c w).2) as [-> _];
    [vm_compute; reflexivity|done].
Defined.

Lemma select_returns_selected_witness :
  let w := Scenarios.fresh Scenarios.store2 None in
  let tracked := load_all_value Scenarios.no_git w in
  exists l, select tracked ["2"; "1"; "2"] [] w = (Ret l, w) /\
            trackfile <$> l = [Some "m2.am"; Some "X.pr"; Some "m2.am"] /\
            length l = 3%nat.
Proof.
  intros w tracked.
  set (l := match select tracked ["2"; "1"; "2"] [] w with
            | (Ret l, _) => l
            | _ => []
            end).
  assert (select tracked ["2"; "1"; "2"] [] w = (Ret l, w)) as Hrun
    by (vm_compute; reflexivity).
  exists l. split; [done|]. split; [vm_compute; reflexivity|].
  apply (proj1 (select_returns_selected tracked ["2"; "1"; "2"] w l w))
    in Hrun as [_ Hall].
  by apply Forall2_length in Hall.
Defined.

Lemma discard_all_empties_listing_witness :
  exists w',
    discard_selected Scenarios.no_git (Scenarios.cmd false [] ["_all"])
      (Scenarios.fresh Scenarios.store2 None) = (Raise (SystemExit 0), w') /\
    list_tracked Scenarios.no_git w' = (Ret [], w').
Proof.
  destruct (discard_all_empties_listing Scenarios.no_git
              (Scenarios.cmd false [] ["_all"])
              (Scenarios.fresh Scenarios.store2 None)
              "Bob" "bob@example.com")
    as (w' & Hrun & Hlist & _).
  - compute_done.
  - compute_done.
  - reflexivity.
  - reflexivity.
  - by left.
  - by exists w'.
Defined.

Lemma reply_recipients_filtered_witness :
  Reply.reply_recipients
    [("Bob", "bob@example.com"); ("List", "list@example.com");
     ("Alice", "alice@example.com"); ("", "bob@example.com")]
    [("Carol", "carol@example.com"); ("Alice", "alice@example.com")]
    (set_identity "Bob" "bob@example.com" "m2.am" Scenarios.series2) =
  Ret ([("List", "list@example.com"); ("Alice", "alice@example.com")],
       [("Carol", "carol@example.com")]).
Proof.
  rewrite (reply_recipients_filtered _ _
             (set_identity "Bob" "bob@example.com" "m2.am" Scenarios.series2)
             "bob@example.com" eq_refl).
  vm_compute. reflexivity.
Defined.

Lemma thanks_slug_normalised_witness :
  thanks_slug Scenarios.series2 <> "" /\
  all_chars is_slug_char (thanks_slug Scenarios.series2) = true /\
  no_double_underscore (thanks_slug Scenarios.series2) = true /\
  suffix (thanks_slug Scenarios.series2 +:+ ".thanks") = ".thanks".
Proof.
  apply (thanks_slug_normalised Scenarios.series2); reflexivity.
Defined.

Lemma reply_subject_idempotent_witness :
  Reply.reply_subject "[PATCH] Re: tidy" = "[PATCH] Re: tidy" /\
  Reply.reply_subject "RE: tidy" = "Re: RE: tidy".
Proof.
  split.
  - destruct (reply_subject_idempotent "[PATCH] Re: tidy")
      as (_ & _ & _ & Hkept & _).
    by apply (Hkept "[PATCH] " "tidy").
  - destruct (reply_subject_idempotent "RE: tidy")
      as (_ & _ & _ & _ & Hprefixed & _).
    apply Hprefixed. intros a c Heq.
    assert (0 <= Reply.find "RE: tidy" "Re: ") as Hfound.
    { unfold Reply.find. apply find_from_found; [done|]. by exists a, c. }
    vm_compute in Hfound. by apply Hfound.
Defined.

Lemma reply_domain_of_address_witness :
  Reply.reply_domain "bob" = Raise IndexError /\
  Reply.reply_domain "bob@example.com" = Ret "example.com".
Proof.
  destruct reply_domain_of_address as (Hnone & Hone & _). split.
  - by apply Hnone.
  - by apply (Hone "bob" "example.com").
Defined.

Lemma send_messages_marks_sent_witness :
  let w := Scenarios.fresh Scenarios.store2 None in
  let listing := load_all_value Scenarios.no_git w in
  exists w',
    send_messages Scenarios.no_git listing "." w = (Ret tt, w') /\
    forall j, j ∈ listing ->
      exists n, trackfile j = Some n /\ (n ∉ f_name <$> data_dir w').
Proof.
  intros w listing.
  exists (send_messages Scenarios.no_git listing "." w).2.
  split; [vm_compute; reflexivity|].
  intros j Hj.
  destruct (send_messages_marks_sent Scenarios.no_git listing "." w
              (send_messages Scenarios.no_git listing "." w).2)
    with (j := j) as (n & r & Hn & Hgone & _).
  - compute_done.
  - compute_done.
  - intros j' n' Hj' Hn'. vm_compute in Hj'.
    apply elem_of_cons in Hj' as [->|Hj'];
      [injection Hn' as <-; by left|].
    apply elem_of_cons in Hj' as [->|Hj'];
      [injection Hn' as <-; by right|].
    by apply elem_of_nil in Hj'.
  - vm_compute. reflexivity.
  - done.
  - by exists n.
Defined.

Lemma send_messages_missing_template_witness :
  let w := Scenarios.fresh Scenarios.store1 None in
  send_messages Scenarios.template_missing
    (load_all_value Scenarios.template_missing w) "." w =
  (Raise (SystemExit 2), set_out_dir (Some []) w).
Proof.
  intros w.
  apply (send_messages_missing_template Scenarios.template_missing
           (set_identity "Bob" "bob@example.com" "m2.am" Scenarios.series2)
           [] "." w "/home/bob/am.tpl"); reflexivity.
Defined.

Lemma main_auto_never_checks_witness :
  let w := Scenarios.fresh Scenarios.store1 Scenarios.stale_out in
  main Scenarios.series_applied (Scenarios.cmd true [] []) w =
  auto_thankanator Scenarios.series_applied (Scenarios.cmd true [] []) w.
Proof.
  intros w.
  apply (main_auto_never_checks Scenarios.series_applied
           (Scenarios.cmd true [] []) "bob@example.com" w); reflexivity.
Defined.

(** Subjects of replies. *)
Example reply_subject_ex :
  Reply.reply_subject "[PATCH 0/2] tidy" = "Re: [PATCH 0/2] tidy" /\
  Reply.reply_subject "Re: [PATCH 0/2] tidy" = "Re: [PATCH 0/2] tidy" /\
  Reply.reply_subject "RE: tidy" = "Re: RE: tidy" /\
  Reply.reply_subject "[PATCH] Re: tidy" = "[PATCH] Re: tidy".
Proof. repeat split; reflexivity. Qed.

(** ** The locating phase of the orchestrator *)

Section LocatingPhase.

Context (b : b4).

Lemma MY_COMMITS_setitem_store k v w r w' :
  MY_COMMITS_setitem k v w = (r, w') ->
  data_dir w' = data_dir w /\ out_dir w' = out_dir w.
Proof.
  unfold MY_COMMITS_setitem. destruct (MY_COMMITS w); by intros [= <- <-].
Qed.

Lemma index_lines_store gitdir lines w r w' :
  for_each (index_line b gitdir) lines w = (r, w') ->
  data_dir w' = data_dir w /\ out_dir w' = out_dir w.
Proof.
  revert w. induction lines as [|line lines IH]; intros w; cbn [for_each].
  - by intros [= <- <-].
  - unfold bind at 1, index_line, bind, lift.
    destruct (patch_entry b gitdir line) as [e|x]; [|by intros [= <- <-]].
    destruct (MY_COMMITS_setitem e.1 e.2 w) as [[[]|x] w1] eqn:Hset;
      apply MY_COMMITS_setitem_store in Hset as [Hd Ho].
    + intros [Hd' Ho']%IH. split; congruence.
    + by intros [= <- <-].
Qed.

(** Building the index touches neither directory. *)
Lemma get_all_commits_store gitdir branch since committer w r w' :
  get_all_commits b gitdir branch since committer w = (r, w') ->
  data_dir w' = data_dir w /\ out_dir w' = out_dir w.
Proof.
  unfold get_all_commits, bind at 1, get.
  destruct (MY_COMMITS w); [by intros [= <- <-]|].
  unfold bind at 1, put. unfold bind at 1.
  assert (forall v, exists rc,
            (match committer with
             | None => lift (getkey (get_user_config b !! "email"))
             | Some c0 => ret c0
             end) v = (rc, v)) as Hres
    by (intros v; destruct committer; by eexists).
  destruct (Hres {| MY_COMMITS := Some ∅; data_dir := data_dir w;
                    out_dir := out_dir w |}) as [rc Hrc].
  rewrite Hrc. clear Hres Hrc.
  destruct rc as [c|x]; [|by intros [= <- <-]].
  destruct (git_get_command_lines b gitdir _) as [|l ls]; unfold bind, get.
  { by intros [= <- <-]. }
  destruct (for_each (index_line b gitdir) (l :: ls) _)
    as [[[]|x] w1] eqn:Hloop;
    apply index_lines_store in Hloop as [Hd Ho]; simpl in Hd, Ho.
  - destruct (MY_COMMITS w1); intros [= <- <-]; by split.
  - intros [= <- <-]. by split.
Qed.

Lemma auto_locate_series_store gitdir j branch since w r w' :
  auto_locate_series b gitdir j branch since w = (r, w') ->
  data_dir w' = data_dir w /\ out_dir w' = out_dir w.
Proof.
  unfold auto_locate_series, bind at 1.
  destruct (get_all_commits b gitdir branch since None w)
    as [[commits|x] w1] eqn:Hidx;
    apply get_all_commits_store in Hidx as [Hd Ho];
    [|intros [= <- <-]; by split].
  unfold bind, lift. destruct (getkey (patches j)) as [ps|x];
    [|intros [= <- <-]; by split].
  destruct (locate_patches commits (dom commits) ps []) as [found|x];
    [|intros [= <- <-]; by split].
  destruct (decide _); intros [= <- <-]; by split.
Qed.

Lemma omap_length_all {A B} (f : A -> option B) (l : list A) :
  length (omap f l) = length l <-> Forall (fun x => is_Some (f x)) l.
Proof.
  split.
  - intros Hlen. apply Forall_forall. intros x Hx.
    destruct (f x) as [y|] eqn:Hfx; [by eexists|].
    pose proof (omap_length_missing f l x Hx Hfx). lia.
  - intros Hall. symmetry. eapply Forall2_length.
    apply omap_all_found. by apply Forall_forall.
Qed.

(** An index that a call returns is the one in [MY_COMMITS]. *)
Lemma get_all_commits_returns_cached gitdir branch since committer w c w1 :
  get_all_commits b gitdir branch since committer w = (Ret c, w1) ->
  MY_COMMITS w1 = Some c.
Proof.
  destruct (MY_COMMITS w) as [d|] eqn:Hw.
  - unfold get_all_commits, bind, get. rewrite Hw. by intros [= <- <-].
  - intros Hrun. destruct (committer_email b committer) as [e|] eqn:Hc.
    + rewrite (get_all_commits_first b gitdir branch since committer e w
                 Hw Hc) in Hrun.
      destruct (collect b gitdir _).2; [done|].
      by injection Hrun as <- <-.
    + exfalso. destruct committer as [e|]; [done|]. simpl in Hc.
      unfold get_all_commits, bind at 1, get in Hrun. rewrite Hw in Hrun.
      unfold bind at 1, put in Hrun. unfold bind at 1, lift in Hrun.
      by rewrite Hc in Hrun.
Qed.

(** What an answer of [auto_locate_series] says about the index that is
    in [MY_COMMITS] afterwards. *)
Lemma auto_locate_series_answer gitdir j branch since w o w1 :
  auto_locate_series b gitdir j branch since w = (Ret o, w1) ->
  exists c ps,
    MY_COMMITS w1 = Some c /\ patches j = Some ps /\
    (is_Some o <-> Forall (fun patch => is_Some (c !! patch.2)) ps).
Proof.
  intros Hrun. pose proof Hrun as Hrun'. revert Hrun'.
  unfold auto_locate_series, bind at 1.
  destruct (get_all_commits b gitdir branch since None w)
    as [[c|x] w2] eqn:Hidx; [|done].
  unfold bind at 1, lift at 1.
  destruct (patches j) as [ps|] eqn:Hps; [|done]. simpl. intros _.
  rewrite (auto_locate_series_run b gitdir j branch since w c w2 ps Hidx Hps)
    in Hrun.
  injection Hrun as <- <-. exists c, ps.
  split; [by eapply get_all_commits_returns_cached|]. split; [done|].
  rewrite <- (omap_length_all (fun p : string * string => c !! p.2) ps).
  simpl. destruct (decide _) as [Hlen|Hlen].
  - split; [done|intros _; by eexists].
  - split; [by intros [? [=]]|done].
Qed.

(** With the index in place, the locating loop changes nothing. *)
Lemma locate_all_cached gitdir wantbranch since tracked applied w c r w' :
  MY_COMMITS w = Some c ->
  locate_all b gitdir wantbranch since tracked applied w = (r, w') ->
  w' = w.
Proof.
  intros Hc. revert applied.
  induction tracked as [|j tracked IH]; intros applied; cbn [locate_all].
  - by intros [= _ <-].
  - destruct (pr_commit_id j).
    + unfold bind, lift.
      destruct (auto_locate_pr b gitdir j wantbranch) as [[m|]|x];
        [apply IH|apply IH|by intros [= _ <-]].
    + unfold bind at 1, auto_locate_series, bind at 1, get_all_commits,
        bind at 1, get.
      rewrite Hc. unfold ret at 1, bind at 1, lift at 1.
      destruct (getkey (patches j)) as [ps|x]; [|by intros [= _ <-]].
      unfold bind at 1, lift at 1.
      destruct (locate_patches c (dom c) ps []) as [found|x];
        [|by intros [= _ <-]].
      destruct (decide _); unfold ret at 1; apply IH.
Qed.

(** X20. The locating loop of [auto_thankanator] reads the store and
    never changes it: whatever it returns or raises, the data directory
    and the output directory are as before. The items that it returns
    as applied are tracked items in the order of the listing, each at
    most once: a pull request is among them exactly when
    [auto_locate_pr] answers with a merge commit, and it carries that
    commit as [merge_commit_id]; a series is among them, unchanged,
    exactly when every patch-id of it is a key of the index that
    [MY_COMMITS] holds. *)
Theorem locate_all_read_only gitdir wantbranch since tracked applied w r w' :
  locate_all b gitdir wantbranch since tracked applied w = (r, w') ->
  data_dir w' = data_dir w /\ out_dir w' = out_dir w /\
  forall l, r = Ret l ->
    exists kept located,
      l = applied ++ located /\
      kept `sublist_of` tracked /\
      Forall2
        (fun j j' =>
           match pr_commit_id j with
           | Some _ =>
               exists m, auto_locate_pr b gitdir j wantbranch = Ret (Some m) /\
                         j' = set_merge_commit_id m j
           | None =>
               j' = j /\
               forall idx, MY_COMMITS w' = Some idx ->
                 exists ps, patches j = Some ps /\
                   Forall (fun patch => is_Some (idx !! patch.2)) ps
           end) kept located /\
      (forall j m, j ∈ tracked -> pr_commit_id j <> None ->
         auto_locate_pr b gitdir j wantbranch = Ret (Some m) ->
         set_merge_commit_id m j ∈ located) /\
      (forall j ps idx, j ∈ tracked -> pr_commit_id j = None ->
         patches j = Some ps -> MY_COMMITS w' = Some idx ->
         Forall (fun patch => is_Some (idx !! patch.2)) ps ->
         j ∈ located).
Proof.
  revert applied w.
  induction tracked as [|j tracked IH]; intros applied w; cbn [locate_all].
  - intros [= <- <-]. split; [done|]. split; [done|].
    intros l [= <-]. exists [], [].
    split; [by rewrite app_nil_r|]. split; [constructor|].
    split; [constructor|].
    split; intros; by match goal with H : _ ∈ [] |- _ =>
                        apply elem_of_nil in H end.
  - destruct (pr_commit_id j) as [pr|] eqn:Hpr.
    + (* a pull request *)
      unfold bind, lift.
      destruct (auto_locate_pr b gitdir j wantbranch) as [[m|]|x] eqn:Hloc.
      * intros Hrun. destruct (IH _ _ Hrun) as (Hd & Ho & Hl).
        split; [done|]. split; [done|]. intros l Hr.
        destruct (Hl l Hr)
          as (kept & located & -> & Hsub & Hall & Hprs & Hsers).
        exists (j :: kept), (set_merge_commit_id m j :: located).
        split; [by rewrite <- app_assoc|].
        split; [by apply sublist_skip|].
        split; [constructor; [|done]; rewrite Hpr; by exists m|].
        split.
        -- intros j0 m0 [->|Hin]%elem_of_cons Hj0 Hm0.
           ++ assert (m0 = m) as -> by congruence. by left.
           ++ right. by apply Hprs.
        -- intros j0 ps idx [->|Hin]%elem_of_cons Hj0 Hps Hidx Hfound.
           ++ congruence.
           ++ right. by eapply Hsers.
      * intros Hrun. destruct (IH _ _ Hrun) as (Hd & Ho & Hl).
        split; [done|]. split; [done|]. intros l Hr.
        destruct (Hl l Hr)
          as (kept & located & -> & Hsub & Hall & Hprs & Hsers).
        exists kept, located. split; [done|].
        split; [by apply sublist_cons|]. split; [done|]. split.
        -- intros j0 m0 [->|Hin]%elem_of_cons Hj0 Hm0;
             [congruence|by apply Hprs].
        -- intros j0 ps idx [->|Hin]%elem_of_cons Hj0 Hps Hidx Hfound;
             [congruence|by eapply Hsers].
      * intros [= <- <-]. split; [done|]. split; [done|]. by intros l [=].
    + (* a series *)
      unfold bind at 1.
      destruct (auto_locate_series b gitdir j wantbranch since w)
        as [[o|x] w1] eqn:Hser.
      2: { intros [= <- <-].
           apply auto_locate_series_store in Hser as [Hd Ho].
           split; [done|]. split; [done|]. by intros l [=]. }
      pose proof (auto_locate_series_store _ _ _ _ _ _ _ Hser) as [Hd1 Ho1].
      destruct (auto_locate_series_answer _ _ _ _ _ _ _ Hser)
        as (c & ps & Hc & Hps & Hiff).
      assert (forall applied',
                locate_all b gitdir wantbranch since tracked applied' w1 =
                  (r, w') -> w' = w1) as Hsame
        by (intros applied'; by apply locate_all_cached with (c := c)).
      destruct o as [found|].
      * intros Hrun. pose proof (Hsame _ Hrun) as ->.
        destruct (IH _ _ Hrun) as (_ & _ & Hl).
        split; [done|]. split; [done|]. intros l Hr.
        destruct (Hl l Hr)
          as (kept & located & -> & Hsub & Hall & Hprs & Hsers).
        exists (j :: kept), (j :: located).
        split; [by rewrite <- app_assoc|].
        split; [by apply sublist_skip|].
        split.
        { constructor; [|done]. rewrite Hpr. split; [done|].
          intros idx Hidx. exists ps. split; [done|].
          assert (idx = c) as -> by congruence. by apply Hiff. }
        split.
        -- intros j0 m0 [->|Hin]%elem_of_cons Hj0 Hm0;
             [congruence|right; by apply Hprs].
        -- intros j0 ps0 idx [->|Hin]%elem_of_cons Hj0 Hps0 Hidx Hfound;
             [by left|right; by eapply Hsers].
      * intros Hrun. pose proof (Hsame _ Hrun) as ->.
        destruct (IH _ _ Hrun) as (_ & _ & Hl).
        split; [done|]. split; [done|]. intros l Hr.
        destruct (Hl l Hr)
          as (kept & located & -> & Hsub & Hall & Hprs & Hsers).
        exists kept, located. split; [done|].
        split; [by apply sublist_cons|]. split; [done|]. split.
        -- intros j0 m0 [->|Hin]%elem_of_cons Hj0 Hm0;
             [congruence|by apply Hprs].
        -- intros j0 ps0 idx [->|Hin]%elem_of_cons Hj0 Hps0 Hidx Hfound;
             [|by eapply Hsers].
           exfalso. assert (ps0 = ps) as -> by congruence.
           assert (idx = c) as -> by congruence.
           apply Hiff in Hfound. by destruct Hfound.
Qed.

(** X21. A branch that git does not list, or a failing
    [git branch --show-current] when no branch was requested, ends
    [auto_thankanator] with status 1 before the store is read; nothing
    is changed. *)
Theorem auto_thankanator_unknown_branch c w :
  match cmd_branch c with
  | Some br =>
      br ∉ git_get_command_lines b (cmd_gitdir c)
             ["branch"; "--format=%(refname:short)"; "--list"]
  | None =>
      0 < (git_run_command b (cmd_gitdir c)
             ["branch"; "--show-current"] None).1
  end ->
  auto_thankanator b c w = (Raise (SystemExit 1), w).
Proof.
  unfold auto_thankanator, bind at 1.
  destruct (cmd_branch c) as [br|].
  - intros Hbr.
    destruct (git_get_command_lines b (cmd_gitdir c) _) as [|l ls]; [done|].
    by destruct (decide _).
  - destruct (git_run_command b (cmd_gitdir c) _ None) as [ecode out].
    simpl. intros Hcode.
    by destruct (Z.ltb_spec 0 ecode); [|lia].
Qed.

End LocatingPhase.

Lemma locate_all_read_only_witness :
  let w := Scenarios.fresh Scenarios.store1 Scenarios.stale_out in
  let tracked := load_all_value Scenarios.series_applied w in
  exists l w',
    locate_all Scenarios.series_applied None "main" "1.week" tracked [] w =
      (Ret l, w') /\
    data_dir w' = data_dir w /\ out_dir w' = out_dir w /\ length l = 1%nat.
Proof.
  intros w tracked.
  set (run := locate_all Scenarios.series_applied None "main" "1.week"
                tracked [] w).
  assert (run = (Ret tracked, run.2)) as Hrun by (vm_compute; reflexivity).
  exists tracked, run.2. split; [done|].
  destruct (locate_all_read_only Scenarios.series_applied None "main"
              "1.week" tracked [] w (Ret tracked) run.2 Hrun)
    as (Hd & Ho & _).
  split; [done|]. split; [done|]. reflexivity.
Defined.

Lemma auto_thankanator_unknown_branch_witness :
  let c := {| cmd_gitdir := None; cmd_branch := Some "next";
              cmd_since := "1.week"; cmd_outdir := "."; cmd_auto := true;
              cmd_send := []; cmd_discard := [] |} in
  let w := Scenarios.fresh Scenarios.store1 None in
  auto_thankanator Scenarios.no_git c w = (Raise (SystemExit 1), w).
Proof.
  intros c w. apply (auto_thankanator_unknown_branch Scenarios.no_git c w).
  simpl. apply not_elem_of_nil.
Defined.

(** [int] skips tab, LF, VT, FF, CR and space, and no other control
    character. *)
Example int_space_ex :
  Py.int (String "009" "12 ") = Py.Ret 12 /\
  Py.int (String "028" "12") = Py.Raise Py.ValueError.
Proof. split; reflexivity. Qed.
